(** * Meshtastic broker: a shallow embedding of [Meshtastic_Broker_v2.1.py]

    The first part embeds the module, in the order of its dependencies:
    exceptions and Python values; the dotted-path accessor [_get] and
    [_extract_channel]; the texts of numbers and [repr]; [_sanitize];
    [json.dumps] and [_safe_json_dumps]; a recogniser of JSON texts;
    sockets, [_safe_send_line] and [_broadcast_json]; the module state
    with the statistics, [_pubsub_callback], the client handler and
    [_connect_interface_loop].  The second part proves the properties.

    Conventions.  A [str] is held as its UTF-8 code units.  A [float] is
    held by its class (NaN, infinite, finite) and, when finite, by the
    decimal literal its [repr] prints.  Exceptions are values of
    [result]; functions that touch the module state run in the monad
    [M], which keeps the state reached when an exception is raised.
    [_sanitize] takes the number of nested activations the interpreter
    still allows and raises [RecursionError] beyond it.  Everything the
    broker does to the outside is recorded in a trace of [action]s.
    Diagnostic printing is left out ([_verbose] is off), except in
    [_packet_summary] and [_pubsub_callback_verbose] at the end of the
    first part, where the lines printed are returned. *)

From Stdlib Require Import ZArith NArith List Strings.String Strings.Ascii Strings.Byte Bool Lia.
From Stdlib Require Import QArith.
From Stdlib Require Import DecimalString DecimalFacts DecimalPos DecimalN.
Import ListNotations.
Open Scope string_scope.
Open Scope Z_scope.

Set Warnings "-register-all".

(* ------------------------------------------------------------------ *)
(** ** Exceptions *)

(** The exception classes the module can meet.  Every one of them is a
    subclass of [Exception], so a bare [except Exception] catches each. *)
Inductive exc_class : Type :=
| RecursionError
| TypeError
| ValueError
| AttributeError
| OSError
| MeshInterfaceError
| OtherException.

(** An exception instance: its class and the text [str(e)] yields. *)
Record exc : Type := Exc { e_class : exc_class; e_msg : string }.

Inductive result (A : Type) : Type :=
| Ok (a : A)
| Raise (e : exc).
Arguments Ok {A} a.
Arguments Raise {A} e.

Definition bind {A B} (m : result A) (k : A -> result B) : result B :=
  match m with
  | Ok a => k a
  | Raise e => Raise e
  end.

(** [try: m  except Exception as e: h e] *)
Definition try_except {A} (m : result A) (h : exc -> result A) : result A :=
  match m with
  | Ok a => Ok a
  | Raise e => h e
  end.

Declare Scope py_scope.
Delimit Scope py_scope with py.
Notation "x <- m ;; k" := (bind m (fun x => k))
  (at level 61, m at next level, right associativity) : py_scope.
Open Scope py_scope.

(** A comprehension [[f(x) for x in l]] whose body may raise. *)
Section MapM.
Context {A B : Type} (f : A -> result B).

Fixpoint mapM (l : list A) : result (list B) :=
  match l with
  | [] => Ok []
  | x :: l' => y <- f x ;; ys <- mapM l' ;; Ok (y :: ys)
  end.
End MapM.

(* ------------------------------------------------------------------ *)
(** ** Python values *)

(** A [float] is kept by what the module observes of it: whether it is
    NaN or infinite ([math.isnan], [math.isinf]) and, when finite, the
    decimal literal [float.__repr__] prints (sign, integer part, fraction
    digits, exponent). *)
Inductive pyfloat : Type :=
| FNan
| FInf (neg : bool)
| FFinite (neg : bool) (ipart : N) (frac : Decimal.uint) (exp : option Z).

(** Python objects as the broker sees them.  A [str] is its sequence of
    UTF-8 code units; [bytes] and [bytearray] are both [PBytes]; a [set]
    is held in its iteration order; a [dict] is the list of its items in
    insertion order.  [PMessage conv text] is a protobuf message:
    [conv] is what [MessageToDict] returns for it ([None] when that call
    raises) and [text] is [str(msg)].  [PObject cls attrs text] is any
    other object of class [cls]: [attrs] is its [__dict__] when it has
    one and [text] is what [str] and [repr] print. *)
Inductive pyval : Type :=
| PNone
| PBool (b : bool)
| PInt (z : Z)
| PFloat (f : pyfloat)
| PStr (s : string)
| PBytes (bs : list byte)
| PList (xs : list pyval)
| PTuple (xs : list pyval)
| PSet (xs : list pyval)
| PDict (kvs : list (pyval * pyval))
| PMessage (conv : option pyval) (text : string)
| PObject (cls : string) (attrs : option (list (pyval * pyval))) (text : string).

Definition pydict : Type := list (pyval * pyval).

(** [isinstance(v, int)]: [bool] is a subclass of [int]. *)
Definition isinstance_int (v : pyval) : bool :=
  match v with
  | PInt _ | PBool _ => true
  | _ => false
  end.

(** The integer a value of type [int] (or [bool]) stands for. *)
Definition int_value (v : pyval) : option Z :=
  match v with
  | PInt z => Some z
  | PBool b => Some (if b then 1 else 0)
  | _ => None
  end.

(* ------------------------------------------------------------------ *)
(** ** Dictionaries with [str] keys *)

(** [k == s] for a [str] [s]: only an equal [str] key matches. *)
Definition key_is (s : string) (k : pyval) : bool :=
  match k with
  | PStr s' => String.eqb s s'
  | _ => false
  end.

(** [d.get(s)] / [s in d] / [d[s]] *)
Fixpoint dict_get (s : string) (d : pydict) : option pyval :=
  match d with
  | [] => None
  | (k, v) :: d' => if key_is s k then Some v else dict_get s d'
  end.

(** [d[s] = v]: an existing key keeps its place, a new one goes last. *)
Fixpoint dict_set (s : string) (v : pyval) (d : pydict) : pydict :=
  match d with
  | [] => [(PStr s, v)]
  | (k, v0) :: d' =>
      if key_is s k then (k, v) :: d' else (k, v0) :: dict_set s v d'
  end.


(* ------------------------------------------------------------------ *)
(** ** [_get]: access by dotted path (lines 138-145) *)

(** [s.split(sep)] for a one-character separator. *)
Fixpoint split (sep : ascii) (s : string) : list string :=
  match s with
  | EmptyString => [EmptyString]
  | String c s' =>
      if Ascii.eqb c sep then EmptyString :: split sep s'
      else match split sep s' with
           | h :: t => String c h :: t
           | [] => [String c EmptyString]
           end
  end.

(** The [for k in path.split(".")] loop of [_get]. *)
Fixpoint _get_loop (cur : pyval) (ks : list string) (default : pyval) : pyval :=
  match ks with
  | [] => cur
  | k :: ks' =>
      match cur with
      | PDict d =>
          match dict_get k d with
          | Some v => _get_loop v ks' default
          | None => default
          end
      | _ => default
      end
  end.

Definition _get (d : pyval) (path : string) (default : pyval) : pyval :=
  _get_loop d (split "." path) default.

(* ------------------------------------------------------------------ *)
(** ** [_extract_channel] (lines 149-168) *)

Definition candidates : list string :=
  [ "decoded.header.channelIndex";
    "decoded.header.channel_index";
    "rxMetadata.channel";
    "rx_metadata.channel";
    "decoded.channel";
    "decoded.channel_index" ].

(** The [for path in candidates] loop; falling out of it returns [None]. *)
Fixpoint _extract_channel_loop (pkt : pyval) (paths : list string) : pyval :=
  match paths with
  | [] => PNone
  | path :: rest =>
      let v := _get pkt path PNone in
      if isinstance_int v then v else _extract_channel_loop pkt rest
  end.

Definition _extract_channel (pkt : pydict) : pyval :=
  _extract_channel_loop (PDict pkt) candidates.

(** Path resolution as the specification words it: a path resolves by
    walking nested mappings, each segment being a key of the current
    mapping. *)
Inductive resolves : pyval -> list string -> pyval -> Prop :=
| resolves_here v : resolves v [] v
| resolves_step d k ks v' v :
    dict_get k d = Some v' ->
    resolves v' ks v ->
    resolves (PDict d) (k :: ks) v.

(* ------------------------------------------------------------------ *)
(** ** Text of numbers, [str] and [repr] *)

Definition dquote : ascii := "034"%char.
Definition squote : ascii := "039"%char.
Definition backslash : ascii := "092"%char.
Definition newline : ascii := "010"%char.

Definition str1 (c : ascii) : string := String c EmptyString.

(** [int.__repr__] *)
Definition int_repr (z : Z) : string := NilEmpty.string_of_int (Z.to_int z).

Definition nat_repr (n : N) : string := NilEmpty.string_of_uint (N.to_uint n).

(** The exponent of a float [repr]: a sign and at least two digits. *)
Definition exp_repr (e : Z) : string :=
  let digits := nat_repr (Z.abs_N e) in
  (if e <? 0 then "-" else "+")
  ++ (if Z.abs e <? 10 then "0" ++ digits else digits).

(** The fraction of a float [repr], with its point. *)
Definition frac_repr (frac : Decimal.uint) : string :=
  match frac with
  | Decimal.Nil => ""
  | _ => "." ++ NilEmpty.string_of_uint frac
  end.

Definition exponent_repr (e : option Z) : string :=
  match e with
  | None => ""
  | Some e => "e" ++ exp_repr e
  end.

(** [float.__repr__] *)
Definition float_repr (f : pyfloat) : string :=
  match f with
  | FNan => "nan"
  | FInf neg => if neg then "-inf" else "inf"
  | FFinite neg ipart frac e =>
      (if neg then "-" else "")
      ++ nat_repr ipart ++ frac_repr frac ++ exponent_repr e
  end.

(** One lowercase hexadecimal digit. *)
Definition hexdigit (n : N) : ascii :=
  if (n <? 10)%N then ascii_of_N (48 + n) else ascii_of_N (87 + n).

Definition hex2 (n : N) : string :=
  String (hexdigit (n / 16)) (String (hexdigit (n mod 16)) EmptyString).

(** [bytes.hex()] *)
Fixpoint hex (bs : list byte) : string :=
  match bs with
  | [] => EmptyString
  | b :: bs' => hex2 (Byte.to_N b) ++ hex bs'
  end.

Fixpoint contains (c : ascii) (s : string) : bool :=
  match s with
  | EmptyString => false
  | String c' s' => Ascii.eqb c c' || contains c s'
  end.

Fixpoint join (sep : string) (l : list string) : string :=
  match l with
  | [] => EmptyString
  | [x] => x
  | x :: l' => x ++ sep ++ join sep l'
  end.

(** One character of [repr] of a [str] or [bytes] written between
    quotes [q]; code units from 128 up are printed as they are in a
    [str] and as [\xNN] in [bytes]. *)
Definition repr_char (q : ascii) (high_escaped : bool) (c : ascii) : string :=
  let n := N_of_ascii c in
  if Ascii.eqb c q || Ascii.eqb c backslash then String backslash (str1 c)
  else if (n =? 9)%N then String backslash "t"
  else if (n =? 10)%N then String backslash "n"
  else if (n =? 13)%N then String backslash "r"
  else if (n <? 32)%N || (n =? 127)%N || (high_escaped && (127 <? n)%N)
       then String backslash ("x" ++ hex2 n)
  else str1 c.

Fixpoint repr_chars (q : ascii) (high_escaped : bool) (s : string) : string :=
  match s with
  | EmptyString => EmptyString
  | String c s' => repr_char q high_escaped c ++ repr_chars q high_escaped s'
  end.

(** Python quotes with an apostrophe, unless the text holds an apostrophe
    and no double quote. *)
Definition repr_quote (s : string) : ascii :=
  if contains squote s && negb (contains dquote s) then dquote else squote.

Definition str_repr (s : string) : string :=
  let q := repr_quote s in
  String q (repr_chars q false s ++ str1 q).

Definition bytes_repr (bs : list byte) : string :=
  let s := string_of_list_byte bs in
  let q := repr_quote s in
  String "b" (String q (repr_chars q true s ++ str1 q)).

(** [repr(v)] *)
Fixpoint py_repr (v : pyval) : string :=
  match v with
  | PNone => "None"
  | PBool b => if b then "True" else "False"
  | PInt z => int_repr z
  | PFloat f => float_repr f
  | PStr s => str_repr s
  | PBytes bs => bytes_repr bs
  | PList xs => "[" ++ join ", " (map py_repr xs) ++ "]"
  | PTuple xs =>
      match xs with
      | [x] => "(" ++ py_repr x ++ ",)"
      | _ => "(" ++ join ", " (map py_repr xs) ++ ")"
      end
  | PSet xs =>
      match xs with
      | [] => "set()"
      | _ => "{" ++ join ", " (map py_repr xs) ++ "}"
      end
  | PDict kvs =>
      "{" ++ join ", " (map (fun kv => py_repr (fst kv) ++ ": " ++ py_repr (snd kv)) kvs)
      ++ "}"
  | PMessage _ text => text
  | PObject _ _ text => text
  end.

(** [str(v)]: a [str] is itself, everything else prints as its [repr]. *)
Definition py_str (v : pyval) : string :=
  match v with
  | PStr s => s
  | _ => py_repr v
  end.

(** [type(v).__name__] *)
Definition type_name (v : pyval) : string :=
  match v with
  | PNone => "NoneType"
  | PBool _ => "bool"
  | PInt _ => "int"
  | PFloat _ => "float"
  | PStr _ => "str"
  | PBytes _ => "bytes"
  | PList _ => "list"
  | PTuple _ => "tuple"
  | PSet _ => "set"
  | PDict _ => "dict"
  | PMessage _ _ => "Message"
  | PObject cls _ _ => cls
  end.

(* ------------------------------------------------------------------ *)
(** ** [_sanitize] *)

(** The dict comprehension of [_sanitize]: items are visited in order and
    stored under the [str] of their sanitized key, a repeated key keeping
    its place and taking the later value. *)
Section DictComp.
Variable f : pyval -> result pyval.

Fixpoint dict_comp (items : pydict) (acc : pydict) : result pydict :=
  match items with
  | [] => Ok acc
  | (k, v) :: rest =>
      k' <- f k ;;
      v' <- f v ;;
      dict_comp rest (dict_set (py_str k') v' acc)
  end.
End DictComp.

(** [_sanitize(obj)] (source lines 74-103).  [depth] is the number of nested activations of
    [_sanitize] the interpreter still allows before it raises
    [RecursionError]; protobuf is importable, so [_PBMessage] is the
    message base class. *)
Fixpoint _sanitize (depth : nat) (obj : pyval) : result pyval :=
  match depth with
  | O => Raise (Exc RecursionError "maximum recursion depth exceeded")
  | S d =>
      match obj with
      | PBytes bs => Ok (PStr (hex bs))
      | PMessage conv text =>
          try_except
            (match conv with
             | Some m => _sanitize d m
             | None => Raise (Exc OtherException "MessageToDict failed")
             end)
            (fun _ => Ok (PDict [(PStr "_proto_repr", PStr text)]))
      | PDict kvs => r <- dict_comp (_sanitize d) kvs [] ;; Ok (PDict r)
      | PList xs | PTuple xs | PSet xs =>
          ys <- mapM (_sanitize d) xs ;; Ok (PList ys)
      | PFloat f =>
          match f with
          | FNan | FInf _ => Ok PNone
          | FFinite _ _ _ _ => Ok obj
          end
      | PObject _ (Some attrs) text =>
          try_except (_sanitize d (PDict attrs)) (fun _ => Ok (PStr text))
      | _ => Ok obj
      end
  end.

(* ------------------------------------------------------------------ *)
(** ** [json.dumps] *)

(** One character of a JSON string with [ensure_ascii=False]: the quote,
    the backslash and the control characters are escaped, everything
    else is copied. *)
Definition json_char (c : ascii) : string :=
  let n := N_of_ascii c in
  if Ascii.eqb c dquote then String backslash (str1 dquote)
  else if Ascii.eqb c backslash then String backslash (str1 backslash)
  else if (n =? 10)%N then String backslash "n"
  else if (n =? 13)%N then String backslash "r"
  else if (n =? 9)%N then String backslash "t"
  else if (n =? 8)%N then String backslash "b"
  else if (n =? 12)%N then String backslash "f"
  else if (n <? 32)%N then String backslash ("u00" ++ hex2 n)
  else str1 c.

Fixpoint json_chars (s : string) : string :=
  match s with
  | EmptyString => EmptyString
  | String c s' => json_char c ++ json_chars s'
  end.

Definition json_string (s : string) : string :=
  String dquote (json_chars s ++ str1 dquote).

(** Floats with the default [allow_nan=True]. *)
Definition json_float (f : pyfloat) : string :=
  match f with
  | FNan => "NaN"
  | FInf neg => if neg then "-Infinity" else "Infinity"
  | FFinite _ _ _ _ => float_repr f
  end.

(** The text of a dict key: [str] keys as they are, the other scalars
    converted, anything else refused. *)
Definition json_key (k : pyval) : result string :=
  match k with
  | PStr s => Ok s
  | PFloat f => Ok (json_float f)
  | PBool b => Ok (if b then "true" else "false")
  | PNone => Ok "null"
  | PInt z => Ok (int_repr z)
  | _ => Raise (Exc TypeError
                  ("keys must be str, int, float, bool or None, not " ++ type_name k))
  end.

(** [json.dumps(v, ensure_ascii=False, separators=(item_sep, key_sep))] *)
Fixpoint json_dumps (item_sep key_sep : string) (v : pyval) {struct v} : result string :=
  match v with
  | PNone => Ok "null"
  | PBool b => Ok (if b then "true" else "false")
  | PInt z => Ok (int_repr z)
  | PFloat f => Ok (json_float f)
  | PStr s => Ok (json_string s)
  | PList xs | PTuple xs =>
      parts <- mapM (json_dumps item_sep key_sep) xs ;;
      Ok ("[" ++ join item_sep parts ++ "]")
  | PDict kvs =>
      parts <- mapM (fun kv =>
                       k <- json_key (fst kv) ;;
                       x <- json_dumps item_sep key_sep (snd kv) ;;
                       Ok (json_string k ++ key_sep ++ x)) kvs ;;
      Ok ("{" ++ join item_sep parts ++ "}")
  | _ => Raise (Exc TypeError
                  ("Object of type " ++ type_name v ++ " is not JSON serializable"))
  end.

(** [_safe_json_dumps(obj)] (lines 105-110). *)
Definition _safe_json_dumps (depth : nat) (obj : pyval) : result string :=
  try_except
    (v <- _sanitize depth obj ;; json_dumps "," ":" v)
    (fun e =>
       json_dumps ", " ": "
         (PDict [(PStr "type", PStr "status");
                 (PStr "msg", PStr ("serialization_error: " ++ e_msg e))])).

(* ------------------------------------------------------------------ *)
(** ** JSON texts

    A recogniser for the JSON grammar of RFC 8259, used to say that a
    line parses.  Each scanner returns what is left of the input after
    the item it accepts. *)

Definition is_digit (c : ascii) : bool :=
  let n := N_of_ascii c in ((48 <=? n) && (n <=? 57))%N.

Definition is_hex_digit (c : ascii) : bool :=
  let n := N_of_ascii c in
  (is_digit c || ((97 <=? n) && (n <=? 102)) || ((65 <=? n) && (n <=? 70)))%N.


Definition is_ws (c : ascii) : bool :=
  let n := N_of_ascii c in ((n =? 32) || (n =? 9) || (n =? 10) || (n =? 13))%N.

(** The characters that may follow a backslash, [u] apart. *)
Definition is_escape (c : ascii) : bool :=
  Ascii.eqb c dquote || Ascii.eqb c backslash || Ascii.eqb c "/"
  || Ascii.eqb c "b" || Ascii.eqb c "f" || Ascii.eqb c "n"
  || Ascii.eqb c "r" || Ascii.eqb c "t".

Fixpoint skip_ws (s : string) : string :=
  match s with
  | String c r => if is_ws c then skip_ws r else s
  | EmptyString => s
  end.

Fixpoint skip_digits (s : string) : string :=
  match s with
  | String c r => if is_digit c then skip_digits r else s
  | EmptyString => s
  end.

(** The rest of a string, from just after its opening quote. *)
Fixpoint scan_string (s : string) : option string :=
  match s with
  | EmptyString => None
  | String c r =>
      if Ascii.eqb c dquote then Some r
      else if Ascii.eqb c backslash then
        match r with
        | String e r1 =>
            if Ascii.eqb e "u" then
              match r1 with
              | String h1 (String h2 (String h3 (String h4 r2))) =>
                  if is_hex_digit h1 && is_hex_digit h2
                     && is_hex_digit h3 && is_hex_digit h4
                  then scan_string r2 else None
              | _ => None
              end
            else if is_escape e then scan_string r1 else None
        | EmptyString => None
        end
      else if (N_of_ascii c <? 32)%N then None
      else scan_string r
  end.

(** One digit or more. *)
Definition scan_digits (s : string) : option string :=
  match s with
  | String c r => if is_digit c then Some (skip_digits r) else None
  | EmptyString => None
  end.

(** [0], or a digit other than [0] followed by digits. *)
Definition scan_int (s : string) : option string :=
  match s with
  | String c r =>
      if Ascii.eqb c "0" then Some r
      else if is_digit c then Some (skip_digits r) else None
  | EmptyString => None
  end.

Definition scan_frac (s : string) : option string :=
  match s with
  | String c r => if Ascii.eqb c "." then scan_digits r else Some s
  | EmptyString => Some s
  end.

Definition scan_exp (s : string) : option string :=
  match s with
  | String c r =>
      if Ascii.eqb c "e" || Ascii.eqb c "E" then
        match r with
        | String g r' =>
            if Ascii.eqb g "+" || Ascii.eqb g "-" then scan_digits r'
            else scan_digits r
        | EmptyString => None
        end
      else Some s
  | EmptyString => Some s
  end.

Definition scan_number (s : string) : option string :=
  let s0 := match s with
            | String c r => if Ascii.eqb c "-" then r else s
            | EmptyString => s
            end in
  match scan_int s0 with
  | Some s1 =>
      match scan_frac s1 with
      | Some s2 => scan_exp s2
      | None => None
      end
  | None => None
  end.

(** [s] without its prefix [p], when it has it. *)
Fixpoint strip_prefix (p s : string) : option string :=
  match p with
  | EmptyString => Some s
  | String c p' =>
      match s with
      | String c' s' => if Ascii.eqb c c' then strip_prefix p' s' else None
      | EmptyString => None
      end
  end.

(** A value, the elements of an array after its bracket, the members of
    an object after its brace.  [fuel] bounds the nesting and the number
    of items; the length of the text is always enough. *)
Fixpoint scan_value (fuel : nat) (s : string) {struct fuel} : option string :=
  match fuel with
  | O => None
  | S n =>
      match skip_ws s with
      | EmptyString => None
      | String c r =>
          if Ascii.eqb c dquote then scan_string r
          else if Ascii.eqb c "[" then
            match skip_ws r with
            | String c' r' =>
                if Ascii.eqb c' "]" then Some r' else scan_elements n r
            | EmptyString => None
            end
          else if Ascii.eqb c "{" then
            match skip_ws r with
            | String c' r' =>
                if Ascii.eqb c' "}" then Some r' else scan_members n r
            | EmptyString => None
            end
          else if Ascii.eqb c "t" then strip_prefix "rue" r
          else if Ascii.eqb c "f" then strip_prefix "alse" r
          else if Ascii.eqb c "n" then strip_prefix "ull" r
          else scan_number (String c r)
      end
  end
with scan_elements (fuel : nat) (s : string) {struct fuel} : option string :=
  match fuel with
  | O => None
  | S n =>
      match scan_value n s with
      | Some r =>
          match skip_ws r with
          | String c r' =>
              if Ascii.eqb c "," then scan_elements n r'
              else if Ascii.eqb c "]" then Some r' else None
          | EmptyString => None
          end
      | None => None
      end
  end
with scan_members (fuel : nat) (s : string) {struct fuel} : option string :=
  match fuel with
  | O => None
  | S n =>
      match skip_ws s with
      | String q r =>
          if Ascii.eqb q dquote then
            match scan_string r with
            | Some r1 =>
                match skip_ws r1 with
                | String c r2 =>
                    if Ascii.eqb c ":" then
                      match scan_value n r2 with
                      | Some r3 =>
                          match skip_ws r3 with
                          | String c' r4 =>
                              if Ascii.eqb c' "," then scan_members n r4
                              else if Ascii.eqb c' "}" then Some r4 else None
                          | EmptyString => None
                          end
                      | None => None
                      end
                    else None
                | EmptyString => None
                end
            | None => None
            end
          else None
      | EmptyString => None
      end
  end.

(** [s] is one JSON value, white space around it allowed. *)
Definition json_valid (s : string) : bool :=
  match scan_value (S (String.length s)) s with
  | Some r =>
      match skip_ws r with
      | EmptyString => true
      | String _ _ => false
      end
  | None => false
  end.

(* ------------------------------------------------------------------ *)
(** ** Positions in a value and in its sanitized image *)










(** The number of nested activations [_sanitize] needs for [v], less
    one: a container asks one more than its deepest part, a message one
    more than its conversion, an object one more than its [__dict__]. *)
Fixpoint height (v : pyval) : nat :=
  match v with
  | PList xs | PTuple xs | PSet xs => S (list_max (map height xs))
  | PDict kvs =>
      S (list_max (map (fun kv => Nat.max (height (fst kv)) (height (snd kv))) kvs))
  | PMessage (Some m) _ => S (height m)
  | PObject _ (Some kvs) _ =>
      S (S (list_max (map (fun kv => Nat.max (height (fst kv)) (height (snd kv))) kvs)))
  | _ => O
  end.


(* ------------------------------------------------------------------ *)
(** ** Sockets and what the broker does to the outside *)

(** A client socket, by identity. *)
Definition sock : Type := nat.

(** The calls that leave the process, and the calls of [_broadcast_json]
    with the object they are given. *)
Inductive action : Type :=
| Broadcast (obj : pyval)
| SendAll (s : sock) (data : list byte) (ok : bool)
| Close (s : sock)
| Connect (host : string)
| Subscribe
| Sleep (secs : Q).

(** [s.rstrip(c)] for one character. *)
Fixpoint rstrip (c : ascii) (s : string) : string :=
  match s with
  | EmptyString => EmptyString
  | String c' s' =>
      match rstrip c s' with
      | EmptyString => if Ascii.eqb c' c then EmptyString else str1 c'
      | r => String c' r
      end
  end.

(** [s.encode("utf-8", errors="replace")]: a [str] is already held as
    its UTF-8 code units. *)
Definition encode_utf8 (s : string) : list byte := list_byte_of_string s.

(** [l.remove(x)]: the first occurrence goes, [ValueError] when there is
    none. *)
Fixpoint list_remove (x : sock) (l : list sock) : result (list sock) :=
  match l with
  | [] => Raise (Exc ValueError "list.remove(x): x not in list")
  | y :: l' =>
      if Nat.eqb x y then Ok l'
      else l'' <- list_remove x l' ;; Ok (y :: l'')
  end.

Definition is_ValueError (c : exc_class) : bool :=
  match c with ValueError => true | _ => false end.

Definition is_MeshInterfaceError (c : exc_class) : bool :=
  match c with MeshInterfaceError => true | _ => false end.

(** The [finally] of [BrokerTCPHandler.handle], on the registry:
    [try: _clients.remove(sock)  except ValueError: pass]. *)
Definition unregister (s : sock) (clients : list sock) : result (list sock) :=
  match list_remove s clients with
  | Ok clients' => Ok clients'
  | Raise e => if is_ValueError (e_class e) then Ok clients else Raise e
  end.

Section Broker.
(** [depth]: the stack left for [_sanitize]; [down s]: writes to [s]
    fail (the peer is gone). *)
Variable depth : nat.
Variable down : sock -> bool.

Definition sendall (s : sock) (data : list byte) : result unit :=
  if down s then Raise (Exc OSError "Broken pipe") else Ok tt.

(** [_safe_send_line(sock, line)] (lines 114-121), with the write it
    attempts. *)
Definition _safe_send_line (s : sock) (line : string) : bool * list action :=
  let data := encode_utf8 (rstrip newline line ++ str1 newline) in
  match sendall s data with
  | Ok _ => (true, [SendAll s data true])
  | Raise _ => (false, [SendAll s data false])
  end.

(** First loop of [_broadcast_json]: write to each client, collect the
    ones whose write failed. *)
Fixpoint send_pass (line : string) (cs : list sock) : list sock * list action :=
  match cs with
  | [] => ([], [])
  | s :: cs' =>
      let (ok, t1) := _safe_send_line s line in
      let (drop, t2) := send_pass line cs' in
      (if ok then drop else s :: drop, (t1 ++ t2)%list)
  end.

(** Second loop: [try: _clients.remove(d); d.close()  except: pass]. *)
Fixpoint drop_pass (drop : list sock) (clients : list sock) : list sock * list action :=
  match drop with
  | [] => (clients, [])
  | d :: ds =>
      match list_remove d clients with
      | Ok clients' =>
          let (c, t) := drop_pass ds clients' in (c, Close d :: t)
      | Raise _ => drop_pass ds clients
      end
  end.

(** [_broadcast_json(obj)] (lines 123-136) on the registry. *)
Definition _broadcast_json (obj : pyval) (clients : list sock)
  : result (list sock * list action) :=
  line <- _safe_json_dumps depth obj ;;
  let (drop, t1) := send_pass line clients in
  let (clients', t2) := drop_pass drop clients in
  Ok (clients', Broadcast obj :: (t1 ++ t2)%list).

(* ---------------------------------------------------------------- *)
(** *** Module state *)

(** The module globals, the local [last_hb] of the ingestion loop, and
    the actions performed so far (oldest first). *)
Record world : Type := World {
  _clients : list sock;
  _interface : option string;
  _total_packets : Z;
  _by_channel : list (pyval * Z);
  _last_priming : Q;
  last_hb : Q;
  trace : list action }.

Definition set_clients (c : list sock) (w : world) : world :=
  World c (_interface w) (_total_packets w) (_by_channel w)
        (_last_priming w) (last_hb w) (trace w).

Definition set_interface (i : option string) (w : world) : world :=
  World (_clients w) i (_total_packets w) (_by_channel w)
        (_last_priming w) (last_hb w) (trace w).

Definition set_stats (t : Z) (b : list (pyval * Z)) (w : world) : world :=
  World (_clients w) (_interface w) t b
        (_last_priming w) (last_hb w) (trace w).

Definition set_last_priming (q : Q) (w : world) : world :=
  World (_clients w) (_interface w) (_total_packets w) (_by_channel w)
        q (last_hb w) (trace w).

Definition set_last_hb (q : Q) (w : world) : world :=
  World (_clients w) (_interface w) (_total_packets w) (_by_channel w)
        (_last_priming w) q (trace w).

Definition log (t : list action) (w : world) : world :=
  World (_clients w) (_interface w) (_total_packets w) (_by_channel w)
        (_last_priming w) (last_hb w) (trace w ++ t)%list.

(** Statements that read and write the state and may raise; what was
    done before an exception stays done. *)
Definition M (A : Type) : Type := world -> result A * world.

Definition ret {A} (a : A) : M A := fun w => (Ok a, w).

Definition bindM {A B} (m : M A) (k : A -> M B) : M B :=
  fun w => match m w with
           | (Ok a, w') => k a w'
           | (Raise e, w') => (Raise e, w')
           end.

Definition lift {A} (r : result A) : M A := fun w => (r, w).

Definition update (f : world -> world) : M unit := fun w => (Ok tt, f w).

(** [try: m  except Exception as e: h e] *)
Definition try_M {A} (m : M A) (h : exc -> M A) : M A :=
  fun w => match m w with
           | (Ok a, w') => (Ok a, w')
           | (Raise e, w') => h e w'
           end.

Notation "x <-- m ;; k" := (bindM m (fun x => k))
  (at level 61, m at next level, right associativity).
Notation "m ;;; k" := (bindM m (fun _ => k))
  (at level 61, right associativity).

Definition broadcast (obj : pyval) : M unit :=
  fun w => match _broadcast_json obj (_clients w) with
           | Ok (c, t) => (Ok tt, log t (set_clients c w))
           | Raise e => (Raise e, w)
           end.

(* ---------------------------------------------------------------- *)
(** *** Statistics *)

(** Keys of [_by_channel] are [int]s; [True == 1] and [False == 0]. *)
Definition chan_eqb (a b : pyval) : bool :=
  match int_value a, int_value b with
  | Some x, Some y => Z.eqb x y
  | _, _ => false
  end.

(** [_by_channel.get(ch, default)] *)
Fixpoint by_channel_get (ch : pyval) (m : list (pyval * Z)) (default : Z) : Z :=
  match m with
  | [] => default
  | (k, n) :: m' => if chan_eqb ch k then n else by_channel_get ch m' default
  end.

(** [_by_channel[ch] = n]: an equal key stays as it is and keeps its
    place. *)
Fixpoint by_channel_set (ch : pyval) (n : Z) (m : list (pyval * Z))
  : list (pyval * Z) :=
  match m with
  | [] => [(ch, n)]
  | (k, n0) :: m' =>
      if chan_eqb ch k then (k, n) :: m' else (k, n0) :: by_channel_set ch n m'
  end.

(** [m.get(s, default)] on whatever [m] is: only a [dict] has it. *)
Definition method_get (m : pyval) (s : string) (default : pyval) : result pyval :=
  match m with
  | PDict d =>
      Ok (match dict_get s d with
          | Some v => v
          | None => default
          end)
  | _ => Raise (Exc AttributeError
                  ("'" ++ type_name m ++ "' object has no attribute 'get'"))
  end.

(** [_inc_stats_from_packet(pkt)] (lines 187-194). *)
Definition _inc_stats_from_packet (pkt : pydict) : M unit :=
  ch <-- lift (method_get
                 (match dict_get "meta" pkt with
                  | Some m => m
                  | None => PDict []
                  end)
                 "channelIndex" (_extract_channel pkt)) ;;
  update (fun w =>
            set_stats (_total_packets w + 1)
              (if isinstance_int ch
               then by_channel_set ch (by_channel_get ch (_by_channel w) 0 + 1)
                      (_by_channel w)
               else _by_channel w)
              w).

(** The channel [_inc_stats_from_packet] counts for an event whose
    [meta] is absent or a mapping: the tag at [meta.channelIndex] when
    the event has one, what [_extract_channel] derives otherwise. *)
Definition counted_channel (pkt : pydict) : pyval :=
  match dict_get "meta" pkt with
  | Some (PDict m) =>
      match dict_get "channelIndex" m with
      | Some v => v
      | None => _extract_channel pkt
      end
  | _ => _extract_channel pkt
  end.

(** [w'] is [w] after one event of channel [ch] was counted: the total
    is one more; when [ch] is an integer its entry is one more (a new
    entry, keyed [ch], starting from zero) and no other entry moves;
    otherwise no entry moves; nothing else changes. *)
Definition counted (w : world) (ch : pyval) (w' : world) : Prop :=
  _total_packets w' = _total_packets w + 1
  /\ _clients w' = _clients w
  /\ _interface w' = _interface w
  /\ _last_priming w' = _last_priming w
  /\ last_hb w' = last_hb w
  /\ trace w' = trace w
  /\ (isinstance_int ch = true ->
      forall c, by_channel_get c (_by_channel w') 0 =
                by_channel_get c (_by_channel w) 0 + (if chan_eqb c ch then 1 else 0))
  /\ (isinstance_int ch = true ->
      (forall k x, In (k, x) (_by_channel w) -> chan_eqb ch k = false) ->
      _by_channel w' = (_by_channel w ++ [(ch, 1)])%list)
  /\ (isinstance_int ch = false -> _by_channel w' = _by_channel w).

(** [_get_stats()] (lines 196-199). *)
Definition _get_stats (w : world) : pyval :=
  PDict [(PStr "total", PInt (_total_packets w));
         (PStr "by_channel",
          PDict (map (fun kn => (fst kn, PInt (snd kn))) (_by_channel w)))].

(* ---------------------------------------------------------------- *)
(** *** [_pubsub_callback] *)

(** The [meta] mapping of an event as it arrives, empty when the event
    has none or holds something else there. *)
Definition old_meta (packet : pydict) : pydict :=
  match dict_get "meta" packet with
  | Some (PDict m) => m
  | _ => []
  end.

(** The two statements that write [packet["meta"]["channelIndex"]]. *)
Definition tag_channel (packet : pydict) : pydict :=
  let ch := _extract_channel packet in
  let packet1 :=
    match dict_get "meta" packet with
    | Some (PDict _) => packet
    | _ => dict_set "meta" (PDict []) packet
    end in
  match dict_get "meta" packet1 with
  | Some (PDict meta) =>
      dict_set "meta" (PDict (dict_set "channelIndex" ch meta)) packet1
  | _ => packet1
  end.

(** [_pubsub_callback(packet, interface)] (lines 237-256) with
    [_verbose] off; the result is [packet] as the caller finds it
    afterwards. *)
Definition _pubsub_callback (packet : pydict) : M pydict :=
  let packet' := tag_channel packet in
  try_M
    (_inc_stats_from_packet packet' ;;;
     broadcast (PDict [(PStr "type", PStr "packet");
                       (PStr "packet", PDict packet')]))
    (fun _ => ret tt) ;;;
  ret packet'.

(* ---------------------------------------------------------------- *)
(** *** [BrokerTCPHandler.handle] *)

(** Lines 209-212, up to the drain loop: register, greet. *)
Definition handle_enter (s : sock) : M unit :=
  update (fun w => set_clients (_clients w ++ [s])%list w) ;;;
  line <-- lift (_safe_json_dumps depth
                   (PDict [(PStr "type", PStr "broker_info");
                           (PStr "msg", PStr "connected")])) ;;
  update (log (snd (_safe_send_line s line))).

(** Lines 220-229, the [finally] block: unregister, close. *)
Definition handle_exit (s : sock) : M unit :=
  c <-- (fun w => (unregister s (_clients w), w)) ;;
  update (set_clients c) ;;;
  update (log [Close s]).

(* ---------------------------------------------------------------- *)
(** *** [_connect_interface_loop] *)

(** What the outside answers during one turn of the loop: whether
    [TCPInterface(hostname=host)] and [pub.subscribe] return or raise,
    and the two readings of [time.time()]. *)
Record tick : Type := Tick {
  connect : result unit;
  subscribe : result unit;
  now : Q;
  now_priming : Q }.

Definition status (msg : string) (more : pydict) : pyval :=
  PDict ((PStr "type", PStr "status") :: (PStr "msg", PStr msg) :: more).

(** [_priming_tick(host)] (lines 258-268). *)
Definition _priming_tick (host : string) (t : Q) : M unit :=
  fun w =>
    if negb (Qle_bool 60 (t - _last_priming w)%Q) then (Ok tt, w)
    else
      (update (set_last_priming t) ;;;
       w' <-- (fun w => (Ok w, w)) ;;
       broadcast (status "priming"
                    [(PStr "host", PStr host); (PStr "stats", _get_stats w')])) w.

(** The block under [_interface_lock]: connect when there is no
    interface yet. *)
Definition connect_block (host : string) (tk : tick) : M unit :=
  fun w =>
    match _interface w with
    | Some _ => (Ok tt, w)
    | None =>
        (update (log [Connect host]) ;;;
         lift (connect tk) ;;;
         update (set_interface (Some host)) ;;;
         update (log [Subscribe]) ;;;
         lift (subscribe tk) ;;;
         broadcast (status "connected" [(PStr "host", PStr host)])) w
    end.

(** The heartbeat, when five seconds have passed since the last. *)
Definition heartbeat_block (host : string) (tk : tick) : M unit :=
  fun w =>
    if Qle_bool 5 (now tk - last_hb w)%Q then
      (broadcast (status "heartbeat"
                    [(PStr "host", PStr host); (PStr "stats", _get_stats w)]) ;;;
       update (set_last_hb (now tk))) w
    else (Ok tt, w).

(** The body of the [try]. *)
Definition loop_try (host : string) (tk : tick) : M unit :=
  connect_block host tk ;;;
  heartbeat_block host tk ;;;
  _priming_tick host (now_priming tk) ;;;
  update (log [Sleep (1 # 2)%Q]).

(** One turn of the [while] loop: the [try] and its two handlers. *)
Definition loop_turn (host : string) (tk : tick) : M unit :=
  try_M (loop_try host tk)
    (fun e =>
       if is_MeshInterfaceError (e_class e) then
         broadcast (status ("connect_error: " ++ e_msg e) []) ;;;
         update (log [Sleep 3%Q])
       else
         broadcast (status ("unexpected_error: " ++ e_msg e) []) ;;;
         update (log [Sleep 3%Q])).

(** [_connect_interface_loop(host)] (lines 270-305): one [tick] for each
    turn taken while [_should_run] holds. *)
Fixpoint _connect_interface_loop (host : string) (ticks : list tick) : M unit :=
  match ticks with
  | [] => ret tt
  | tk :: rest => loop_turn host tk ;;; _connect_interface_loop host rest
  end.

End Broker.

(* ------------------------------------------------------------------ *)
(** ** What a broadcast leaves behind *)

(** The writes and closes of one broadcast of [line]: a write to every
    client in registry order, then the close of each client whose write
    failed. *)
Definition deliveries (down : sock -> bool) (line : string) (clients : list sock)
  : list action :=
  (map (fun s => SendAll s (encode_utf8 (rstrip newline line ++ str1 newline))
                   (negb (down s))) clients
   ++ map Close (filter down clients))%list.

(** The state after [obj], serialized as [line], was broadcast in [w]. *)
Definition after_broadcast (down : sock -> bool) (obj : pyval) (line : string)
    (w : world) : world :=
  log (Broadcast obj :: deliveries down line (_clients w))
      (set_clients (filter (fun s => negb (down s)) (_clients w)) w).

(** The durations slept, in order. *)
Fixpoint sleeps (t : list action) : list Q :=
  match t with
  | [] => []
  | Sleep q :: t' => q :: sleeps t'
  | _ :: t' => sleeps t'
  end.

(** The objects handed to [_broadcast_json], in order. *)
Fixpoint broadcasts (t : list action) : list pyval :=
  match t with
  | [] => []
  | Broadcast obj :: t' => obj :: broadcasts t'
  | _ :: t' => broadcasts t'
  end.

(** [obj[k]] when [obj] is a mapping that has the key. *)
Definition field (k : string) (obj : pyval) : option pyval :=
  match obj with
  | PDict d => dict_get k d
  | _ => None
  end.

(** [st] is a statistics snapshot [{total, by_channel}]. *)
Definition is_stats (st : pyval) : Prop :=
  exists total by_channel,
    st = PDict [(PStr "total", PInt total); (PStr "by_channel", PDict by_channel)].

(** The status objects of the ingestion loop for upstream [host], by
    their fields. *)
Definition status_fields (host : string) (obj : pyval) : Prop :=
  field "type" obj = Some (PStr "status")
  /\ exists msg,
       field "msg" obj = Some (PStr msg)
       /\ ((msg = "connected"
            /\ field "host" obj = Some (PStr host) /\ field "stats" obj = None)
           \/ ((msg = "heartbeat" \/ msg = "priming")
               /\ field "host" obj = Some (PStr host)
               /\ exists st, field "stats" obj = Some st /\ is_stats st)
           \/ ((exists text, msg = "connect_error: " ++ text
                             \/ msg = "unexpected_error: " ++ text)
               /\ field "host" obj = None /\ field "stats" obj = None)).

(** The message of the status broadcast for exception [e]. *)
Definition error_msg (e : exc) : string :=
  (if is_MeshInterfaceError (e_class e)
   then "connect_error: " else "unexpected_error: ") ++ e_msg e.

(** From [w] to [w'] the broker slept [sl], in that order, and every
    object it broadcast is a status object of the loop for [host]. *)
Definition grows (host : string) (w w' : world) (sl : list Q) : Prop :=
  exists t,
    trace w' = (trace w ++ t)%list
    /\ Forall (status_fields host) (broadcasts t)
    /\ sleeps t = sl.

(* ------------------------------------------------------------------ *)
(** ** Values the encoder can be given *)

(** No NaN and no infinity where the encoder prints a value (dict keys
    are printed quoted). *)
Fixpoint finite_floats (v : pyval) : bool :=
  match v with
  | PFloat (FFinite _ _ _ _) => true
  | PFloat _ => false
  | PList xs | PTuple xs | PSet xs => forallb finite_floats xs
  | PDict kvs => forallb (fun kv => finite_floats (snd kv)) kvs
  | _ => true
  end.

(** What may follow a value inside a compact JSON text: nothing, a
    comma, or a closing bracket or brace. *)
Definition delim (rest : string) : bool :=
  match rest with
  | EmptyString => true
  | String c _ => Ascii.eqb c "," || Ascii.eqb c "]" || Ascii.eqb c "}"
  end.

(** [s] starts like a JSON value: with a character that is neither
    white space nor a closing bracket or brace. *)
Definition starts_value (s : string) : bool :=
  match s with
  | EmptyString => false
  | String c _ => negb (is_ws c || Ascii.eqb c "]" || Ascii.eqb c "}")
  end.

Fixpoint all_digits (s : string) : bool :=
  match s with
  | EmptyString => true
  | String c s' => is_digit c && all_digits s'
  end.

(** [s] does not start with a digit. *)
Definition no_digit_head (s : string) : bool :=
  match s with
  | EmptyString => true
  | String c _ => negb (is_digit c)
  end.

(** The compact text of [v], when [v] has finite floats and the encoder
    accepts it, is scanned as one value up to what follows it. *)
Definition scans (v : pyval) : Prop :=
  forall s,
    finite_floats v = true ->
    json_dumps "," ":" v = Ok s ->
    starts_value s = true
    /\ forall rest fuel,
         delim rest = true ->
         (String.length s < fuel)%nat ->
         scan_value fuel (s ++ rest) = Some rest.

(** The line [_safe_json_dumps] falls back to for exception [e]. *)
Definition fallback_line (e : exc) : string :=
  "{" ++ json_string "type" ++ ": " ++ json_string "status" ++ ", "
  ++ json_string "msg" ++ ": " ++ json_string ("serialization_error: " ++ e_msg e)
  ++ "}".

(** Induction on values, through the lists, items and options they are
    built with. *)
Section PyvalInduction.
Variable P : pyval -> Prop.
Hypothesis P_none : P PNone.
Hypothesis P_bool : forall b, P (PBool b).
Hypothesis P_int : forall z, P (PInt z).
Hypothesis P_float : forall f, P (PFloat f).
Hypothesis P_str : forall s, P (PStr s).
Hypothesis P_bytes : forall bs, P (PBytes bs).
Hypothesis P_list : forall xs, Forall P xs -> P (PList xs).
Hypothesis P_tuple : forall xs, Forall P xs -> P (PTuple xs).
Hypothesis P_set : forall xs, Forall P xs -> P (PSet xs).
Hypothesis P_dict :
  forall kvs, Forall (fun kv => P (fst kv) /\ P (snd kv)) kvs -> P (PDict kvs).
Hypothesis P_message : forall m text, P m -> P (PMessage (Some m) text).
Hypothesis P_message_none : forall text, P (PMessage None text).
Hypothesis P_object :
  forall cls kvs text,
    Forall (fun kv => P (fst kv) /\ P (snd kv)) kvs ->
    P (PObject cls (Some kvs) text).
Hypothesis P_object_none : forall cls text, P (PObject cls None text).

Fixpoint pyval_induction (v : pyval) : P v :=
  let all :=
    fix all (xs : list pyval) : Forall P xs :=
      match xs with
      | [] => @Forall_nil _ P
      | x :: xs' => @Forall_cons _ P x xs' (pyval_induction x) (all xs')
      end in
  let items :=
    fix items (kvs : list (pyval * pyval))
      : Forall (fun kv => P (fst kv) /\ P (snd kv)) kvs :=
      match kvs with
      | [] => @Forall_nil _ _
      | kv :: kvs' =>
          @Forall_cons _ _ kv kvs'
            (conj (pyval_induction (fst kv)) (pyval_induction (snd kv)))
            (items kvs')
      end in
  match v with
  | PNone => P_none
  | PBool b => P_bool b
  | PInt z => P_int z
  | PFloat f => P_float f
  | PStr s => P_str s
  | PBytes bs => P_bytes bs
  | PList xs => P_list xs (all xs)
  | PTuple xs => P_tuple xs (all xs)
  | PSet xs => P_set xs (all xs)
  | PDict kvs => P_dict kvs (items kvs)
  | PMessage (Some m) text => P_message m text (pyval_induction m)
  | PMessage None text => P_message_none text
  | PObject cls (Some kvs) text => P_object cls kvs text (items kvs)
  | PObject cls None text => P_object_none cls text
  end.
End PyvalInduction.

(* ------------------------------------------------------------------ *)
(** ** Registry states *)

(** The states [_clients] goes through: empty at start; a handler
    appends the socket of a connection it has just accepted, which is a
    new object; a handler's [finally] removes its socket; a broadcast
    prunes. *)
Inductive registry_state : list sock -> Prop :=
| registry_start : registry_state []
| registry_accept r s :
    registry_state r -> ~ In s r -> registry_state (r ++ [s])%list
| registry_unregister r s r' :
    registry_state r -> unregister s r = Ok r' -> registry_state r'
| registry_broadcast r depth down obj r' t :
    registry_state r ->
    _broadcast_json depth down obj r = Ok (r', t) ->
    registry_state r'.

(* ------------------------------------------------------------------ *)
(** ** Sample events *)

Definition ev_conflict : pydict :=
  [(PStr "decoded",
     PDict [(PStr "channel", PInt 9);
            (PStr "header", PDict [(PStr "channelIndex", PInt 3);
                                   (PStr "channel_index", PInt 4)])]);
   (PStr "rxMetadata", PDict [(PStr "channel", PInt 5)])].

Definition ev_no_channel : pydict :=
  [(PStr "decoded", PDict [(PStr "header", PStr "x"); (PStr "channel", PStr "2")]);
   (PStr "rxMetadata", PInt 7)].




(** The state at process start, with no client. *)
Definition world0 : world := World [] None 0 [] 0 0 [].

(** An event whose channel index is the boolean [True]. *)
Definition ev_true : pydict :=
  [(PStr "decoded", PDict [(PStr "header", PDict [(PStr "channelIndex", PBool true)])])].

(** One client connected, nothing else yet. *)
Definition world1 : world := World [1%nat] None 0 [] 0 0 [].

(** A turn in which opening the interface raises the interface error. *)
Definition tick_refused : tick :=
  Tick (Raise (Exc MeshInterfaceError "boom")) (Ok tt) 0 0.

Definition all_up (s : sock) : bool := false.



(** A value with something of every kind the sanitizer rewrites. *)
Definition sample_value : pyval :=
  PDict [(PStr "payload", PBytes [x01; xff]);
         (PInt 7, PFloat FNan);
         (PStr "snr", PFloat (FFinite true 1 (Decimal.D5 Decimal.Nil) (Some (-7))));
         (PStr "seen", PSet [PTuple [PInt 1; PBool true]]);
         (PStr "node", PObject "Node" (Some [(PStr "id", PInt 5)]) "<Node>");
         (PStr "proto", PMessage None "id: 5")].

(* ------------------------------------------------------------------ *)
(** ** The shape of what [_sanitize] returns *)

(** [s in d] *)
Definition has_key (s : string) (d : pydict) : bool :=
  existsb (fun kv => key_is s (fst kv)) d.

(** Every key is a [str] and no two keys are equal. *)
Fixpoint distinct_str_keys (d : pydict) : bool :=
  match d with
  | [] => true
  | (PStr s, _) :: d' => negb (has_key s d') && distinct_str_keys d'
  | _ => false
  end.

(** Built from [None], booleans, integers, finite floats, strings, lists
    and dicts with distinct [str] keys, and objects without [__dict__]. *)
Fixpoint sanitized (v : pyval) : bool :=
  match v with
  | PNone | PBool _ | PInt _ | PStr _ => true
  | PFloat (FFinite _ _ _ _) => true
  | PFloat _ => false
  | PList xs => forallb sanitized xs
  | PDict kvs => distinct_str_keys kvs && forallb (fun kv => sanitized (snd kv)) kvs
  | PObject _ None _ => true
  | _ => false
  end.


(* ------------------------------------------------------------------ *)
(** ** More sample events *)

(** An event whose channel sits at a snake-case path, with a string where
    the first path looks. *)
Definition ev_snake : pydict :=
  [(PStr "decoded", PDict [(PStr "header", PDict [(PStr "channelIndex", PStr "3")]);
                           (PStr "channel", PInt 9)]);
   (PStr "rx_metadata", PDict [(PStr "channel", PInt 4)])].

(* ------------------------------------------------------------------ *)
(** ** A run of received events *)

(** The bus calls [_pubsub_callback] once for each event received, in
    order. *)
Fixpoint receive_all (depth : nat) (down : sock -> bool) (packets : list pydict)
  : M unit :=
  match packets with
  | [] => ret tt
  | p :: rest =>
      bindM (_pubsub_callback depth down p) (fun _ => receive_all depth down rest)
  end.

(** How many of the events have a channel equal to [c]. *)
Fixpoint on_channel (c : pyval) (packets : list pydict) : Z :=
  match packets with
  | [] => 0
  | p :: rest =>
      (if chan_eqb c (_extract_channel p) then 1 else 0) + on_channel c rest
  end.

(** How many of the events have a channel at all. *)
Fixpoint with_channel (packets : list pydict) : Z :=
  match packets with
  | [] => 0
  | p :: rest =>
      (if isinstance_int (_extract_channel p) then 1 else 0) + with_channel rest
  end.

(** [sum(_by_channel.values())] *)
Fixpoint sum_counts (m : list (pyval * Z)) : Z :=
  match m with
  | [] => 0
  | (_, n) :: m' => n + sum_counts m'
  end.

(** Every key of the table is an integer, no two keys are equal, and
    every count is positive. *)
Fixpoint well_keyed (m : list (pyval * Z)) : bool :=
  match m with
  | [] => true
  | (k, n) :: m' =>
      isinstance_int k && (0 <? n)%Z
      && negb (existsb (fun kn => chan_eqb k (fst kn)) m')
      && well_keyed m'
  end.

(* ------------------------------------------------------------------ *)
(** ** Lines and what the loop does to the upstream *)

(** The last character of [s] is [c]. *)
Fixpoint ends_with (c : ascii) (s : string) : bool :=
  match s with
  | EmptyString => false
  | String c' EmptyString => Ascii.eqb c' c
  | String _ s' => ends_with c s'
  end.

(** [c * n] *)
Fixpoint replicate (c : ascii) (n : nat) : string :=
  match n with
  | O => EmptyString
  | S n' => String c (replicate c n')
  end.

(** The hosts [TCPInterface] was opened for, in order. *)
Fixpoint connects (t : list action) : list string :=
  match t with
  | [] => []
  | Connect host :: t' => host :: connects t'
  | _ :: t' => connects t'
  end.

(** How many times [pub.subscribe] was called. *)
Fixpoint subscribes (t : list action) : nat :=
  match t with
  | [] => O
  | Subscribe :: t' => S (subscribes t')
  | _ :: t' => subscribes t'
  end.

(** The sockets closed, in order. *)
Fixpoint closes (t : list action) : list sock :=
  match t with
  | [] => []
  | Close s :: t' => s :: closes t'
  | _ :: t' => closes t'
  end.

(** [obj] is a heartbeat or a priming status. *)
Definition is_beat (obj : pyval) : Prop :=
  field "msg" obj = Some (PStr "heartbeat") \/ field "msg" obj = Some (PStr "priming").

(** From [w] to [w'] the broker did [t]: nothing of it towards the
    upstream, the interface is the one it was, and what was broadcast
    are heartbeats and primings. *)
Definition quiet (w w' : world) (t : list action) : Prop :=
  trace w' = (trace w ++ t)%list
  /\ _interface w' = _interface w
  /\ connects t = []
  /\ subscribes t = O
  /\ Forall is_beat (broadcasts t).

(** A turn in which the interface opens and [pub.subscribe] raises. *)
Definition tick_unsubscribed : tick :=
  Tick (Ok tt) (Raise (Exc OtherException "no bus")) 0 0.



(* ------------------------------------------------------------------ *)
(** ** Reading a payload back *)

(** The value of a hexadecimal digit. *)
Definition hexval (c : ascii) : N :=
  let n := N_of_ascii c in
  if (n <? 58)%N then (n - 48)%N else (n - 87)%N.

(** [bytes.fromhex(s)] on a string of digit pairs. *)
Fixpoint unhex (s : string) : option (list byte) :=
  match s with
  | EmptyString => Some []
  | String h (String l s') =>
      match Byte.of_N (16 * hexval h + hexval l), unhex s' with
      | Some b, Some bs => Some (b :: bs)
      | _, _ => None
      end
  | _ => None
  end.

(* ------------------------------------------------------------------ *)
(** ** [_packet_summary] (lines 170-185) and the verbose callback *)

Fixpoint all_zero (d : Decimal.uint) : bool :=
  match d with
  | Decimal.Nil => true
  | Decimal.D0 d' => all_zero d'
  | _ => false
  end.

(** [bool(v)].  An object whose class defines neither [__bool__] nor
    [__len__] is true; the objects and messages held here are of that
    kind. *)
Definition truthy (v : pyval) : bool :=
  match v with
  | PNone => false
  | PBool b => b
  | PInt z => negb (z =? 0)
  | PFloat (FFinite _ ipart frac _) => negb ((ipart =? 0)%N && all_zero frac)
  | PFloat _ => true
  | PStr s => negb (String.eqb s "")
  | PBytes bs => match bs with [] => false | _ => true end
  | PList xs | PTuple xs | PSet xs => match xs with [] => false | _ => true end
  | PDict kvs => match kvs with [] => false | _ => true end
  | PMessage _ _ | PObject _ _ _ => true
  end.

(** [a or b] *)
Definition py_or (a b : pyval) : pyval := if truthy a then a else b.

(** [d.get(s, default)] on a [dict]. *)
Definition get_or (d : pydict) (s : string) (default : pyval) : pyval :=
  match dict_get s d with
  | Some v => v
  | None => default
  end.

(** The arrow of the summary line, in UTF-8. *)
Definition arrow : string :=
  String "226"%char (String "134"%char (String "146"%char EmptyString)).

(** [ch if ch is not None else '??'], printed. *)
Definition channel_text (ch : pyval) : string :=
  match ch with
  | PNone => "??"
  | _ => py_str ch
  end.

(** The first part of the summary line; a replacement field prints its
    value as [str] does. *)
Definition summary_head (ch port frm to : pyval) : string :=
  "RX Canal " ++ channel_text ch
  ++ " | " ++ py_str (py_or port (PStr "UNKNOWN"))
  ++ " | " ++ py_str frm ++ " " ++ arrow ++ " " ++ py_str (py_or to (PStr "?")).

Definition _packet_summary (pkt : pydict) : result string :=
  let dec := py_or (get_or pkt "decoded" (PDict [])) (PDict []) in
  hdr0 <- method_get dec "header" (PDict []) ;;
  let hdr := py_or hdr0 (PDict []) in
  data0 <- method_get dec "data" (PDict []) ;;
  let data := py_or data0 (PDict []) in
  ch <- method_get (get_or pkt "meta" (PDict [])) "channelIndex" (_extract_channel pkt) ;;
  frm <- method_get hdr "fromId" (PStr "") ;;
  to <- method_get hdr "toId" (PStr "") ;;
  port <- method_get dec "portnum" PNone ;;
  txt <- method_get data "text" PNone ;;
  let rssi := get_or pkt "rssi" PNone in
  let snr := get_or pkt "rxSnr" PNone in
  let head := summary_head ch port frm to in
  match txt with
  | PNone =>
      let extras :=
        List.app
          (match rssi with PNone => [] | _ => ["RSSI " ++ py_str rssi ++ " dBm"] end)
          (match snr with PNone => [] | _ => ["SNR " ++ py_str snr ++ " dB"] end) in
      Ok (head ++ " (no-texto)"
          ++ match extras with
             | [] => ""
             | _ => " | " ++ join " | " extras
             end)
  | _ => Ok (head ++ " | " ++ str1 dquote ++ py_str txt ++ str1 dquote)
  end.

(** [_pubsub_callback(packet, interface)] (lines 237-256) with
    [_verbose] on, [stdout] taking every line: the result, the state,
    and the lines printed. *)
Definition _pubsub_callback_verbose (depth : nat) (down : sock -> bool)
    (packet : pydict) (w : world) : (result pydict * world) * list string :=
  let packet' := tag_channel packet in
  let failed (e : exc) := "[broker] error en _pubsub_callback: " ++ e_msg e in
  match _inc_stats_from_packet packet' w with
  | (Raise e, w1) => ((Ok packet', w1), [failed e])
  | (Ok _, w1) =>
      match _packet_summary packet' with
      | Raise e => ((Ok packet', w1), [failed e])
      | Ok line =>
          match broadcast depth down
                  (PDict [(PStr "type", PStr "packet"); (PStr "packet", PDict packet')])
                  w1 with
          | (Raise e, w2) => ((Ok packet', w2), [line; failed e])
          | (Ok _, w2) => ((Ok packet', w2), [line])
          end
      end
  end.

(** An event whose [decoded] is a text, not a mapping. *)
Definition ev_decoded_text : pydict :=
  [(PStr "decoded", PStr "raw"); (PStr "rssi", PInt (-90))].

(** A text message on channel 3. *)
Definition ev_text : pydict :=
  [(PStr "decoded",
     PDict [(PStr "header", PDict [(PStr "channelIndex", PInt 3);
                                   (PStr "fromId", PStr "!a1"); (PStr "toId", PStr "")]);
            (PStr "portnum", PStr "TEXT_MESSAGE_APP");
            (PStr "data", PDict [(PStr "text", PStr "hola")])]);
   (PStr "rssi", PInt (-90))].

(** [v or {}] is a mapping: [v] is a mapping or is false. *)
Definition mapping_or_false (v : pyval) : bool :=
  match py_or v (PDict []) with
  | PDict _ => true
  | _ => false
  end.

(** [decoded], and [header] and [data] inside it, are each absent, false
    or a mapping. *)
Definition decoded_shaped (pkt : pydict) : bool :=
  match py_or (get_or pkt "decoded" (PDict [])) (PDict []) with
  | PDict d =>
      mapping_or_false (get_or d "header" (PDict []))
      && mapping_or_false (get_or d "data" (PDict []))
  | _ => false
  end.

(** [meta] is absent or a mapping. *)
Definition meta_shaped (pkt : pydict) : bool :=
  match get_or pkt "meta" (PDict []) with
  | PDict _ => true
  | _ => false
  end.

(** [s] starts with [p]. *)
Fixpoint starts_with (p s : string) : bool :=
  match p, s with
  | EmptyString, _ => true
  | String a p', String b s' => Ascii.eqb a b && starts_with p' s'
  | _, _ => false
  end.

(* ------------------------------------------------------------------ *)
(** ** What a part of the broker leaves alone *)

(** From [w] to [w'] the counters did not move and no client was
    added. *)
Definition counters_kept (w w' : world) : Prop :=
  _total_packets w' = _total_packets w
  /\ _by_channel w' = _by_channel w
  /\ incl (_clients w') (_clients w).

(* ================================================================== *)
(** * Properties *)

(** Case analysis on the eight bits of a character. *)
Ltac ascii_cases c := destruct c as [[] [] [] [] [] [] [] []].

(** ** Runs on sample inputs *)

Example get_walks_mappings :
  _get (PDict ev_conflict) "decoded.header.channelIndex" PNone = PInt 3
  /\ _get (PDict ev_conflict) "decoded.header.missing" PNone = PNone
  /\ _get (PDict ev_conflict) "decoded.channel.x" PNone = PNone.
Proof. repeat split. Qed.

Example sanitize_sample :
  _sanitize 5 sample_value =
  Ok (PDict
        [(PStr "payload", PStr "01ff");
         (PStr "7", PNone);
         (PStr "snr", PFloat (FFinite true 1 (Decimal.D5 Decimal.Nil) (Some (-7))));
         (PStr "seen", PList [PList [PInt 1; PBool true]]);
         (PStr "node", PDict [(PStr "id", PInt 5)]);
         (PStr "proto", PDict [(PStr "_proto_repr", PStr "id: 5")])]).
Proof. reflexivity. Qed.

Example sanitize_out_of_stack :
  _sanitize 2 (PList [PList [PList []]]) =
  Raise (Exc RecursionError "maximum recursion depth exceeded").
Proof. reflexivity. Qed.

Example object_falls_back_to_text :
  _sanitize 2 (PObject "Node" (Some [(PStr "k", PList [PInt 1])]) "<Node>") =
  Ok (PStr "<Node>").
Proof. reflexivity. Qed.

Example encoder_prints_nan :
  json_dumps "," ":" (PList [PFloat FNan; PFloat (FInf true)]) = Ok "[NaN,-Infinity]"
  /\ json_valid "[NaN,-Infinity]" = false.
Proof. split; reflexivity. Qed.

Example recogniser_rejects :
  json_valid "[1,2,]" = false
  /\ json_valid "01" = false
  /\ json_valid "[1] x" = false
  /\ json_valid "{1:2}" = false
  /\ json_valid "" = false.
Proof. repeat split. Qed.

Example recogniser_accepts :
  json_valid " [1 , 2.5e+10, {}, [ ], -0.0, 1.0E5, null, true] " = true.
Proof. reflexivity. Qed.

Example sample_line_valid :
  exists line, _safe_json_dumps 5 sample_value = Ok line /\ json_valid line = true.
Proof. eexists. split; reflexivity. Qed.

Example unserializable_falls_back :
  _safe_json_dumps 5 (PList [PObject "frozenset" None "frozenset({1})"]) =
  Ok (fallback_line (Exc TypeError "Object of type frozenset is not JSON serializable")).
Proof. reflexivity. Qed.

(** ** The accessor and the channel extractor *)

Lemma get_loop_resolves [cur ks v] default :
  resolves cur ks v -> _get_loop cur ks default = v.
Proof.
  induction 1 as [v | d k ks v' v Hk _ IH]; simpl.
  - reflexivity.
  - rewrite Hk. exact IH.
Qed.

Lemma get_loop_inv cur ks default :
  resolves cur ks (_get_loop cur ks default) \/ _get_loop cur ks default = default.
Proof.
  revert cur. induction ks as [| k ks IH]; intros cur; simpl.
  - left. constructor.
  - destruct cur; try (right; reflexivity).
    destruct (dict_get k kvs) as [v' |] eqn:Hk; [| right; reflexivity].
    destruct (IH v') as [Hres | Hd]; [left | right; exact Hd].
    econstructor; eassumption.
Qed.

Lemma extract_loop_none pkt paths :
  (forall path, In path paths -> isinstance_int (_get pkt path PNone) = false) ->
  _extract_channel_loop pkt paths = PNone.
Proof.
  induction paths as [| p ps IH]; intros H; simpl.
  - reflexivity.
  - rewrite (H p (or_introl eq_refl)). apply IH.
    intros q Hq. apply H. right. exact Hq.
Qed.


Lemma extract_first_path pkt v :
  resolves (PDict pkt) ["decoded"; "header"; "channelIndex"] v ->
  isinstance_int v = true ->
  _extract_channel pkt = v.
Proof.
  intros Hres Hint.
  assert (Hget : _get (PDict pkt) "decoded.header.channelIndex" PNone = v)
    by exact (get_loop_resolves PNone Hres).
  unfold _extract_channel, candidates.
  cbv beta iota zeta delta [_extract_channel_loop].
  rewrite Hget, Hint. reflexivity.
Qed.

(** C2. When [decoded.header.channelIndex] resolves to an integer,
    [_extract_channel] returns that integer, whatever the other paths
    hold; when none of the six paths resolves to an integer, it returns
    [None]. *)
Theorem extract_channel_priority (pkt : pydict) :
  (forall v,
      resolves (PDict pkt) ["decoded"; "header"; "channelIndex"] v ->
      isinstance_int v = true ->
      _extract_channel pkt = v)
  /\
  ((forall path v,
       In path candidates ->
       resolves (PDict pkt) (split "." path) v ->
       isinstance_int v = false) ->
   _extract_channel pkt = PNone).
Proof.
  split.
  - intros v Hres Hint. exact (extract_first_path pkt v Hres Hint).
  - intros H. apply extract_loop_none.
    intros path Hin. unfold _get.
    destruct (get_loop_inv (PDict pkt) (split "." path) PNone) as [Hres | Hd].
    + exact (H path _ Hin Hres).
    + rewrite Hd. reflexivity.
Qed.

Lemma extract_channel_priority_witness :
  _extract_channel ev_conflict = PInt 3 /\ _extract_channel ev_no_channel = PNone.
Proof.
  split.
  - apply (proj1 (extract_channel_priority ev_conflict)).
    + eapply resolves_step; [reflexivity |].
      eapply resolves_step; [reflexivity |].
      eapply resolves_step; [reflexivity |].
      apply resolves_here.
    + reflexivity.
  - apply (proj2 (extract_channel_priority ev_no_channel)).
    intros path v Hin Hres.
    rewrite <- (get_loop_resolves PNone Hres).
    simpl in Hin. intuition (subst; reflexivity).
Defined.

(** ** Dictionaries *)

Lemma key_is_true s k : key_is s k = true -> k = PStr s.
Proof.
  destruct k; simpl; try discriminate.
  intros H. apply String.eqb_eq in H. subst. reflexivity.
Qed.

Lemma key_is_other [s s' k] : s <> s' -> key_is s k = true -> key_is s' k = false.
Proof.
  intros Hne H. apply key_is_true in H. subst. simpl.
  apply String.eqb_neq. congruence.
Qed.

Lemma dict_get_set_same s v d : dict_get s (dict_set s v d) = Some v.
Proof.
  induction d as [| [k v0] d IH]; simpl.
  - rewrite String.eqb_refl. reflexivity.
  - destruct (key_is s k) eqn:E; simpl; rewrite E; [reflexivity | exact IH].
Qed.

Lemma dict_get_set_other s s' v d :
  s <> s' -> dict_get s' (dict_set s v d) = dict_get s' d.
Proof.
  intros Hne. induction d as [| [k v0] d IH]; simpl.
  - destruct (String.eqb_spec s' s); [congruence | reflexivity].
  - destruct (key_is s k) eqn:E; simpl.
    + rewrite (key_is_other Hne E). reflexivity.
    + rewrite IH. reflexivity.
Qed.

Lemma dict_set_set s v1 v2 d : dict_set s v2 (dict_set s v1 d) = dict_set s v2 d.
Proof.
  induction d as [| [k v0] d IH]; simpl.
  - rewrite String.eqb_refl. reflexivity.
  - destruct (key_is s k) eqn:E; simpl; rewrite E; [reflexivity | now rewrite IH].
Qed.


(** ** Tagging *)

Lemma tag_channel_eq packet :
  tag_channel packet =
  dict_set "meta"
    (PDict (dict_set "channelIndex" (_extract_channel packet) (old_meta packet)))
    packet.
Proof.
  unfold tag_channel, old_meta.
  destruct (dict_get "meta" packet) as [m |] eqn:E.
  - destruct m; try (rewrite dict_get_set_same, dict_set_set; reflexivity).
    rewrite E. reflexivity.
  - rewrite dict_get_set_same, dict_set_set. reflexivity.
Qed.

Lemma tag_channel_get_other packet [s] :
  s <> "meta" -> dict_get s (tag_channel packet) = dict_get s packet.
Proof.
  intros H. rewrite tag_channel_eq. apply dict_get_set_other. congruence.
Qed.

Lemma extract_channel_tag packet :
  _extract_channel (tag_channel packet) = _extract_channel packet.
Proof.
  unfold _extract_channel, candidates, _extract_channel_loop, _get.
  cbn [split Ascii.eqb Bool.eqb _get_loop].
  rewrite !(tag_channel_get_other packet (s := "decoded")) by discriminate.
  rewrite !(tag_channel_get_other packet (s := "rxMetadata")) by discriminate.
  rewrite !(tag_channel_get_other packet (s := "rx_metadata")) by discriminate.
  reflexivity.
Qed.

(** ** Statistics *)


Lemma chan_eqb_trans a b c :
  chan_eqb a b = true -> chan_eqb b c = true -> chan_eqb a c = true.
Proof.
  unfold chan_eqb.
  destruct (int_value a), (int_value b), (int_value c); try discriminate.
  rewrite !Z.eqb_eq. congruence.
Qed.

Lemma chan_eqb_sym a b : chan_eqb a b = chan_eqb b a.
Proof.
  unfold chan_eqb.
  destruct (int_value a), (int_value b); try reflexivity. apply Z.eqb_sym.
Qed.


Lemma by_channel_get_set c ch n m d :
  by_channel_get c (by_channel_set ch n m) d =
  if chan_eqb c ch then n else by_channel_get c m d.
Proof.
  induction m as [| [k n0] m IH]; simpl.
  - reflexivity.
  - destruct (chan_eqb ch k) eqn:Ek; simpl.
    + destruct (chan_eqb c k) eqn:Eck.
      * rewrite chan_eqb_sym in Ek. rewrite (chan_eqb_trans _ _ _ Eck Ek). reflexivity.
      * destruct (chan_eqb c ch) eqn:Ecc; [| reflexivity].
        rewrite (chan_eqb_trans _ _ _ Ecc Ek) in Eck. discriminate.
    + rewrite IH. destruct (chan_eqb c k) eqn:Eck; [| reflexivity].
      destruct (chan_eqb c ch) eqn:Ecc; [| reflexivity].
      rewrite chan_eqb_sym in Ecc. rewrite (chan_eqb_trans _ _ _ Ecc Eck) in Ek.
      discriminate.
Qed.

Lemma by_channel_set_new ch n m :
  (forall k x, In (k, x) m -> chan_eqb ch k = false) ->
  by_channel_set ch n m = (m ++ [(ch, n)])%list.
Proof.
  induction m as [| [k n0] m IH]; intros H; simpl.
  - reflexivity.
  - rewrite (H k n0 (or_introl eq_refl)). rewrite IH; [reflexivity |].
    intros k' x Hin. apply (H k' x). right. exact Hin.
Qed.

Lemma by_channel_get_new ch m d :
  (forall k x, In (k, x) m -> chan_eqb ch k = false) ->
  by_channel_get ch m d = d.
Proof.
  induction m as [| [k n0] m IH]; intros H; simpl.
  - reflexivity.
  - rewrite (H k n0 (or_introl eq_refl)). apply IH.
    intros k' x Hin. apply (H k' x). right. exact Hin.
Qed.

(** The run of [_inc_stats_from_packet] on an event whose [meta] is
    absent or a mapping. *)
Lemma inc_stats_run pkt w :
  (dict_get "meta" pkt = None \/ exists m, dict_get "meta" pkt = Some (PDict m)) ->
  _inc_stats_from_packet pkt w =
  (Ok tt,
   set_stats (_total_packets w + 1)
     (if isinstance_int (counted_channel pkt)
      then by_channel_set (counted_channel pkt)
             (by_channel_get (counted_channel pkt) (_by_channel w) 0 + 1)
             (_by_channel w)
      else _by_channel w) w).
Proof.
  intros H. unfold _inc_stats_from_packet, counted_channel, bindM, lift, update.
  destruct H as [H | [m H]]; rewrite H; simpl; [reflexivity |].
  destruct (dict_get "channelIndex" m); reflexivity.
Qed.

Lemma counted_set_stats w ch :
  counted w ch
    (set_stats (_total_packets w + 1)
       (if isinstance_int ch
        then by_channel_set ch (by_channel_get ch (_by_channel w) 0 + 1) (_by_channel w)
        else _by_channel w) w).
Proof.
  unfold counted. simpl. repeat split.
  - intros Hint c. rewrite Hint, by_channel_get_set.
    destruct (chan_eqb c ch) eqn:E; [| lia].
    assert (by_channel_get c (_by_channel w) 0 = by_channel_get ch (_by_channel w) 0) as ->; [| lia].
    clear -E. induction (_by_channel w) as [| [k n] m IH]; simpl; [reflexivity |].
    destruct (chan_eqb c k) eqn:Eck.
    + rewrite chan_eqb_sym in E. rewrite (chan_eqb_trans _ _ _ E Eck). reflexivity.
    + destruct (chan_eqb ch k) eqn:Ek; [| exact IH].
      rewrite (chan_eqb_trans _ _ _ E Ek) in Eck. discriminate.
  - intros Hint Hnew. rewrite Hint.
    rewrite (by_channel_get_new _ _ _ Hnew). apply by_channel_set_new. exact Hnew.
  - intros Hint. rewrite Hint. reflexivity.
Qed.

Lemma tag_channel_meta packet :
  dict_get "meta" (tag_channel packet) =
  Some (PDict (dict_set "channelIndex" (_extract_channel packet) (old_meta packet))).
Proof. rewrite tag_channel_eq. apply dict_get_set_same. Qed.

Lemma counted_channel_tag packet :
  counted_channel (tag_channel packet) = _extract_channel packet.
Proof.
  unfold counted_channel. rewrite tag_channel_meta, dict_get_set_same. reflexivity.
Qed.




(** C10. A [True] at [decoded.header.channelIndex] is taken for the
    channel: [_extract_channel] returns [True], and counting the tagged
    event adds one to the entry of channel 1, which is a new entry keyed
    [True] when channel 1 had none. *)
Theorem bool_channel_counted (pkt : pydict) (w : world) :
  resolves (PDict pkt) ["decoded"; "header"; "channelIndex"] (PBool true) ->
  _extract_channel pkt = PBool true
  /\ exists w',
       _inc_stats_from_packet (tag_channel pkt) w = (Ok tt, w')
       /\ (forall c, by_channel_get c (_by_channel w') 0 =
                     by_channel_get c (_by_channel w) 0
                     + (if chan_eqb c (PInt 1) then 1 else 0))
       /\ ((forall k x, In (k, x) (_by_channel w) -> chan_eqb (PInt 1) k = false) ->
           _by_channel w' = (_by_channel w ++ [(PBool true, 1)])%list).
Proof.
  intros Hres.
  assert (Hch : _extract_channel pkt = PBool true)
    by (apply extract_first_path; [exact Hres | reflexivity]).
  split; [exact Hch |].
  eexists. split.
  - apply inc_stats_run. right. eexists. apply tag_channel_meta.
  - rewrite counted_channel_tag, Hch.
    destruct (counted_set_stats w (PBool true)) as (_ & _ & _ & _ & _ & _ & Hcnt & Hnew & _).
    split.
    + intros c. exact (Hcnt eq_refl c).
    + intros H. exact (Hnew eq_refl H).
Qed.

Example true_key_in_snapshot :
  _sanitize 5 (_get_stats (snd (_inc_stats_from_packet (tag_channel ev_true) world0))) =
  Ok (PDict [(PStr "total", PInt 1);
             (PStr "by_channel", PDict [(PStr "True", PInt 1)])]).
Proof. reflexivity. Qed.

Lemma bool_channel_counted_witness :
  _extract_channel ev_true = PBool true
  /\ exists w',
       _inc_stats_from_packet (tag_channel ev_true) world0 = (Ok tt, w')
       /\ (forall c, by_channel_get c (_by_channel w') 0 =
                     by_channel_get c (_by_channel world0) 0
                     + (if chan_eqb c (PInt 1) then 1 else 0))
       /\ ((forall k x, In (k, x) (_by_channel world0) -> chan_eqb (PInt 1) k = false) ->
           _by_channel w' = (_by_channel world0 ++ [(PBool true, 1)])%list).
Proof.
  apply (bool_channel_counted ev_true world0).
  eapply resolves_step; [reflexivity |].
  eapply resolves_step; [reflexivity |].
  eapply resolves_step; [reflexivity |].
  apply resolves_here.
Defined.

(** ** [_safe_json_dumps] returns *)

Lemma safe_json_dumps_returns depth obj :
  exists line, _safe_json_dumps depth obj = Ok line.
Proof.
  unfold _safe_json_dumps, try_except, bind.
  destruct (_sanitize depth obj) as [v | e].
  - destruct (json_dumps "," ":" v) as [s | e]; eexists; reflexivity.
  - eexists; reflexivity.
Qed.

(** ** The registry *)

Lemma rstrip_absent c s : contains c s = false -> rstrip c s = s.
Proof.
  induction s as [| a s IH]; simpl; intros H.
  - reflexivity.
  - apply orb_false_iff in H. destruct H as [Ha Hs].
    rewrite (IH Hs). rewrite Ascii.eqb_sym, Ha.
    destruct s; reflexivity.
Qed.

Lemma list_byte_of_string_app s t :
  list_byte_of_string (s ++ t) = (list_byte_of_string s ++ list_byte_of_string t)%list.
Proof.
  unfold list_byte_of_string.
  induction s as [| a s IH]; simpl; [reflexivity | now rewrite IH].
Qed.

Lemma send_pass_run down line cs :
  send_pass down line cs =
  (filter down cs,
   map (fun s => SendAll s (encode_utf8 (rstrip newline line ++ str1 newline))
                   (negb (down s))) cs).
Proof.
  induction cs as [| s cs IH]; simpl.
  - reflexivity.
  - rewrite IH. unfold _safe_send_line, sendall.
    destruct (down s); reflexivity.
Qed.

Lemma list_remove_middle d p l :
  ~ In d p -> list_remove d (p ++ d :: l) = Ok (p ++ l)%list.
Proof.
  induction p as [| x p IH]; simpl; intros H.
  - rewrite Nat.eqb_refl. reflexivity.
  - destruct (Nat.eqb_spec d x) as [-> | _]; [exfalso; apply H; left; reflexivity |].
    rewrite IH; [reflexivity | intros Hin; apply H; right; exact Hin].
Qed.

Lemma drop_pass_run down p l :
  (forall s, In s p -> down s = false) ->
  drop_pass (filter down l) (p ++ l) =
  ((p ++ filter (fun s => negb (down s)) l)%list, map Close (filter down l)).
Proof.
  revert p. induction l as [| x l IH]; intros p Hp; simpl.
  - reflexivity.
  - destruct (down x) eqn:Ex; simpl.
    + rewrite list_remove_middle.
      * rewrite (IH p Hp). reflexivity.
      * intros Hin. rewrite (Hp x Hin) in Ex. discriminate.
    + replace (p ++ x :: l)%list with ((p ++ [x]) ++ l)%list
        by (rewrite <- List.app_assoc; reflexivity).
      rewrite IH.
      * rewrite <- List.app_assoc. reflexivity.
      * intros s Hin. apply in_app_or in Hin. destruct Hin as [Hin | [<- | []]];
          [apply Hp; exact Hin | exact Ex].
Qed.

Lemma broadcast_json_run depth down obj clients line :
  _safe_json_dumps depth obj = Ok line ->
  _broadcast_json depth down obj clients =
  Ok (filter (fun s => negb (down s)) clients,
      Broadcast obj
      :: (map (fun s => SendAll s (encode_utf8 (rstrip newline line ++ str1 newline))
                          (negb (down s))) clients
          ++ map Close (filter down clients))%list).
Proof.
  intros Hline. unfold _broadcast_json. rewrite Hline. simpl.
  rewrite send_pass_run.
  pose proof (drop_pass_run down [] clients (fun s (H : In s []) => match H with end)) as Hdrop.
  simpl in Hdrop. rewrite Hdrop. reflexivity.
Qed.

Lemma list_remove_absent s l :
  ~ In s l -> list_remove s l = Raise (Exc ValueError "list.remove(x): x not in list").
Proof.
  induction l as [| x l IH]; simpl; intros H.
  - reflexivity.
  - destruct (Nat.eqb_spec s x) as [-> | _]; [exfalso; apply H; left; reflexivity |].
    rewrite IH; [reflexivity | intros Hin; apply H; right; exact Hin].
Qed.

Lemma list_remove_nodup s l l' :
  NoDup l -> list_remove s l = Ok l' -> NoDup l' /\ ~ In s l' /\ (forall x, In x l' -> In x l).
Proof.
  revert l'. induction l as [| x l IH]; simpl; intros l' Hnd H.
  - discriminate.
  - inversion Hnd as [| ? ? Hx Hl]; subst.
    destruct (Nat.eqb_spec s x) as [-> | Hne].
    + injection H as <-. repeat split; auto.
    + destruct (list_remove s l) as [l'' |] eqn:E; simpl in H; [| discriminate].
      injection H as <-. destruct (IH l'' Hl eq_refl) as (Hnd' & Hnin & Hsub).
      repeat split.
      * constructor; [intros Hin; apply Hx, Hsub, Hin | exact Hnd'].
      * intros [Heq | Hin]; [congruence | exact (Hnin Hin)].
      * intros y [<- | Hin]; [left; reflexivity | right; apply Hsub, Hin].
Qed.

Lemma list_remove_present s l : In s l -> exists l', list_remove s l = Ok l'.
Proof.
  induction l as [| x l IH]; simpl; intros H.
  - destruct H.
  - destruct (Nat.eqb_spec s x) as [-> | Hne]; [eexists; reflexivity |].
    destruct H as [-> | H]; [congruence |].
    destruct (IH H) as [l' ->]. eexists; reflexivity.
Qed.

Lemma unregister_nodup s l :
  NoDup l -> exists l', unregister s l = Ok l' /\ NoDup l' /\ ~ In s l'.
Proof.
  intros Hnd. unfold unregister.
  destruct (in_dec Nat.eq_dec s l) as [Hin | Hnin].
  - destruct (list_remove_present s l Hin) as [l' E]. rewrite E.
    destruct (list_remove_nodup s l l' Hnd E) as (H1 & H2 & _). eauto.
  - rewrite (list_remove_absent s l Hnin). simpl. eauto.
Qed.

Lemma registry_state_nodup r : registry_state r -> NoDup r.
Proof.
  induction 1 as [| r s _ IH Hs | r s r' _ IH Hu | r depth down obj r' t _ IH Hb].
  - constructor.
  - apply NoDup_app; [exact IH | repeat constructor; intros [] |].
    intros x Hx [<- | []]. exact (Hs Hx).
  - destruct (unregister_nodup s r IH) as (l' & E & Hnd & _). congruence.
  - destruct (safe_json_dumps_returns depth obj) as [line Hline].
    rewrite (broadcast_json_run depth down obj r line Hline) in Hb.
    injection Hb as <- _. apply NoDup_filter. exact IH.
Qed.

(** C5. In every state of the registry, unregistering a connection a
    second time raises nothing and leaves the registry as the first
    removal left it; the removal step of a broadcast is as harmless on a
    connection already removed. *)
Theorem unregister_idempotent (r : list sock) (s : sock) :
  registry_state r ->
  exists r1,
    unregister s r = Ok r1
    /\ unregister s r1 = Ok r1
    /\ drop_pass [s] r1 = (r1, []).
Proof.
  intros Hr. apply registry_state_nodup in Hr.
  destruct (unregister_nodup s r Hr) as (r1 & E & _ & Hnin).
  exists r1. split; [exact E |]. split.
  - unfold unregister. rewrite (list_remove_absent s r1 Hnin). reflexivity.
  - simpl. rewrite (list_remove_absent s r1 Hnin). reflexivity.
Qed.

Lemma unregister_idempotent_witness :
  exists r1,
    unregister 2%nat [1; 2; 3]%nat = Ok r1
    /\ unregister 2%nat r1 = Ok r1
    /\ drop_pass [2%nat] r1 = (r1, []).
Proof.
  apply (unregister_idempotent [1; 2; 3]%nat 2%nat).
  apply (registry_accept [1; 2]%nat 3%nat).
  - apply (registry_accept [1]%nat 2%nat).
    + apply (registry_accept [] 1%nat); [apply registry_start | intros []].
    + simpl. intros [H | []]. discriminate H.
  - simpl. intros [H | [H | []]]; discriminate H.
Defined.

(** ** Broadcasting in the state *)

Lemma broadcast_run depth down obj w :
  exists line,
    _safe_json_dumps depth obj = Ok line
    /\ broadcast depth down obj w = (Ok tt, after_broadcast down obj line w).
Proof.
  destruct (safe_json_dumps_returns depth obj) as [line Hline].
  exists line. split; [exact Hline |].
  unfold broadcast. rewrite (broadcast_json_run depth down obj (_clients w) line Hline).
  reflexivity.
Qed.

Lemma sleeps_app t1 t2 : sleeps (t1 ++ t2) = (sleeps t1 ++ sleeps t2)%list.
Proof.
  induction t1 as [| a t1 IH]; simpl; [reflexivity |].
  destruct a; simpl; rewrite IH; reflexivity.
Qed.

Lemma broadcasts_app t1 t2 : broadcasts (t1 ++ t2) = (broadcasts t1 ++ broadcasts t2)%list.
Proof.
  induction t1 as [| a t1 IH]; simpl; [reflexivity |].
  destruct a; simpl; rewrite IH; reflexivity.
Qed.

Lemma sleeps_deliveries down line clients : sleeps (deliveries down line clients) = [].
Proof.
  unfold deliveries. rewrite sleeps_app.
  assert (H1 : forall f l, sleeps (map (fun s => SendAll s (f s) (negb (down s))) l) = []).
  { intros f l. induction l; simpl; auto. }
  assert (H2 : forall l, sleeps (map Close l) = []).
  { intros l. induction l; simpl; auto. }
  rewrite (H1 (fun _ => _)), H2. reflexivity.
Qed.

Lemma broadcasts_deliveries down line clients : broadcasts (deliveries down line clients) = [].
Proof.
  unfold deliveries. rewrite broadcasts_app.
  assert (H1 : forall f l, broadcasts (map (fun s => SendAll s (f s) (negb (down s))) l) = []).
  { intros f l. induction l; simpl; auto. }
  assert (H2 : forall l, broadcasts (map Close l) = []).
  { intros l. induction l; simpl; auto. }
  rewrite (H1 (fun _ => _)), H2. reflexivity.
Qed.


(** ** The ingestion loop *)

Lemma grows_refl host w : grows host w w [].
Proof. exists []. rewrite List.app_nil_r. repeat split. constructor. Qed.

Lemma grows_trans host w1 w2 w3 s1 s2 :
  grows host w1 w2 s1 -> grows host w2 w3 s2 -> grows host w1 w3 (s1 ++ s2)%list.
Proof.
  intros (t1 & E1 & F1 & S1) (t2 & E2 & F2 & S2).
  exists (t1 ++ t2)%list. rewrite E2, E1, <- List.app_assoc. split; [reflexivity |].
  rewrite broadcasts_app, sleeps_app, S1, S2. split; [| reflexivity].
  apply Forall_app. split; assumption.
Qed.

Lemma grows_step host w1 w2 w3 sl :
  grows host w1 w2 [] -> grows host w2 w3 sl -> grows host w1 w3 sl.
Proof. intros G1 G2. exact (grows_trans host w1 w2 w3 [] sl G1 G2). Qed.

Lemma grows_log host w t :
  broadcasts t = [] -> grows host w (log t w) (sleeps t).
Proof. intros H. exists t. rewrite H. repeat split. constructor. Qed.

Lemma grows_same_trace host w w' : trace w' = trace w -> grows host w w' [].
Proof. intros H. exists []. rewrite List.app_nil_r. repeat split; [exact H | constructor]. Qed.

Lemma grows_broadcast host down obj line w :
  status_fields host obj -> grows host w (after_broadcast down obj line w) [].
Proof.
  intros H. exists (Broadcast obj :: deliveries down line (_clients w)).
  split; [reflexivity |]. simpl.
  rewrite broadcasts_deliveries, sleeps_deliveries. split; [| reflexivity].
  constructor; [exact H | constructor].
Qed.

Lemma status_connected host :
  status_fields host (status "connected" [(PStr "host", PStr host)]).
Proof.
  split; [reflexivity |]. exists "connected". split; [reflexivity |].
  left. repeat split.
Qed.

Lemma status_with_stats host msg w :
  msg = "heartbeat" \/ msg = "priming" ->
  status_fields host (status msg [(PStr "host", PStr host); (PStr "stats", _get_stats w)]).
Proof.
  intros H. split; [reflexivity |]. exists msg. split; [reflexivity |].
  right. left. split; [exact H |]. split; [reflexivity |].
  eexists. split; [reflexivity |]. eexists. eexists. reflexivity.
Qed.

Lemma status_error host e : status_fields host (status (error_msg e) []).
Proof.
  split; [reflexivity |]. exists (error_msg e). split; [reflexivity |].
  right. right. split; [| split; reflexivity].
  exists (e_msg e). unfold error_msg.
  destruct (is_MeshInterfaceError (e_class e)); [left | right]; reflexivity.
Qed.

Lemma connect_block_run depth down host tk w :
  exists r w1,
    connect_block depth down host tk w = (r, w1) /\ grows host w w1 [].
Proof.
  unfold connect_block. destruct (_interface w).
  - do 2 eexists. split; [reflexivity | apply grows_refl].
  - unfold bindM, update, lift.
    destruct (connect tk) as [[] | e].
    + destruct (subscribe tk) as [[] | e].
      * destruct (broadcast_run depth down (status "connected" [(PStr "host", PStr host)])
                    (log [Subscribe] (set_interface (Some host) (log [Connect host] w))))
          as (line & _ & ->).
        do 2 eexists. split; [reflexivity |].
        eapply grows_step; [apply (grows_log host w [Connect host]); reflexivity |].
        eapply (grows_step host _ (set_interface (Some host) (log [Connect host] w)));
          [apply grows_same_trace; reflexivity |].
        eapply grows_step; [apply (grows_log host _ [Subscribe]); reflexivity |].
        apply grows_broadcast, status_connected.
      * do 2 eexists. split; [reflexivity |].
        exists [Connect host; Subscribe]. simpl. rewrite <- List.app_assoc.
        repeat split. constructor.
    + do 2 eexists. split; [reflexivity |].
      apply (grows_log host w [Connect host]). reflexivity.
Qed.

Lemma heartbeat_block_run depth down host tk w :
  exists w1,
    heartbeat_block depth down host tk w = (Ok tt, w1) /\ grows host w w1 [].
Proof.
  unfold heartbeat_block. destruct (Qle_bool 5 (now tk - last_hb w)).
  - unfold bindM, update.
    destruct (broadcast_run depth down
                (status "heartbeat" [(PStr "host", PStr host); (PStr "stats", _get_stats w)]) w)
      as (line & _ & ->).
    eexists. split; [reflexivity |].
    eapply grows_step.
    + apply grows_broadcast, status_with_stats. left. reflexivity.
    + apply grows_same_trace. reflexivity.
  - eexists. split; [reflexivity | apply grows_refl].
Qed.

Lemma priming_tick_run depth down host t w :
  exists w1,
    _priming_tick depth down host t w = (Ok tt, w1) /\ grows host w w1 [].
Proof.
  unfold _priming_tick. destruct (Qle_bool 60 (t - _last_priming w)); simpl.
  - unfold bindM, update.
    destruct (broadcast_run depth down
                (status "priming"
                   [(PStr "host", PStr host); (PStr "stats", _get_stats (set_last_priming t w))])
                (set_last_priming t w))
      as (line & _ & ->).
    eexists. split; [reflexivity |].
    eapply (grows_step host w (set_last_priming t w)).
    + apply grows_same_trace. reflexivity.
    + apply grows_broadcast, status_with_stats. right. reflexivity.
  - eexists. split; [reflexivity | apply grows_refl].
Qed.

(** The [try] body either runs to its half-second sleep or raises before
    any sleep. *)
Lemma loop_try_run depth down host tk w :
  exists r w1,
    loop_try depth down host tk w = (r, w1)
    /\ ((r = Ok tt /\ grows host w w1 [(1 # 2)%Q])
        \/ (exists e, r = Raise e /\ grows host w w1 [])).
Proof.
  unfold loop_try, bindM.
  destruct (connect_block_run depth down host tk w) as (r & w1 & -> & G1).
  destruct r as [[] | e].
  - destruct (heartbeat_block_run depth down host tk w1) as (w2 & -> & G2).
    destruct (priming_tick_run depth down host (now_priming tk) w2) as (w3 & -> & G3).
    do 2 eexists. split; [reflexivity |]. left. split; [reflexivity |].
    apply (grows_step host w w1 _ _ G1).
    apply (grows_step host w1 w2 _ _ G2).
    apply (grows_step host w2 w3 _ _ G3).
    apply (grows_log host w3 [Sleep (1 # 2)%Q]). reflexivity.
  - do 2 eexists. split; [reflexivity |]. right. eauto.
Qed.

(** What a turn does with an exception of its [try] body. *)
Lemma loop_turn_handles depth down host tk w e w1 :
  loop_try depth down host tk w = (Raise e, w1) ->
  exists line,
    _safe_json_dumps depth (status (error_msg e) []) = Ok line
    /\ loop_turn depth down host tk w =
       (Ok tt, log [Sleep 3%Q] (after_broadcast down (status (error_msg e) []) line w1)).
Proof.
  intros H. unfold loop_turn, try_M. rewrite H.
  destruct (broadcast_run depth down (status (error_msg e) []) w1) as (line & Hline & Hb).
  exists line. split; [exact Hline |].
  unfold error_msg in *.
  destruct (is_MeshInterfaceError (e_class e)); unfold bindM; rewrite Hb; reflexivity.
Qed.

Lemma loop_turn_run depth down host tk w :
  exists w1 q,
    loop_turn depth down host tk w = (Ok tt, w1) /\ grows host w w1 [q].
Proof.
  destruct (loop_try_run depth down host tk w) as (r & w1 & Hrun & [[-> G] | (e & -> & G)]).
  - exists w1, (1 # 2)%Q. split; [| exact G].
    unfold loop_turn, try_M. rewrite Hrun. reflexivity.
  - destruct (loop_turn_handles depth down host tk w e w1 Hrun) as (line & _ & ->).
    do 2 eexists. split; [reflexivity |].
    apply (grows_step host w w1 _ _ G).
    eapply grows_step.
    + apply grows_broadcast, status_error.
    + apply (grows_log host _ [Sleep 3%Q]). reflexivity.
Qed.

Lemma loop_run depth down host ticks w :
  exists w1 sl,
    _connect_interface_loop depth down host ticks w = (Ok tt, w1)
    /\ grows host w w1 sl /\ List.length sl = List.length ticks.
Proof.
  revert w. induction ticks as [| tk ticks IH]; intros w; simpl.
  - exists w, []. split; [reflexivity |]. split; [apply grows_refl | reflexivity].
  - unfold bindM.
    destruct (loop_turn_run depth down host tk w) as (w1 & q & -> & G1).
    destruct (IH w1) as (w2 & sl & -> & G2 & L).
    exists w2, ([q] ++ sl)%list. split; [reflexivity |].
    split; [exact (grows_trans host w w1 w2 [q] sl G1 G2) | simpl; now rewrite L].
Qed.

(** C6. Whatever exception the [try] body of a turn raises, of the
    interface-error class or of any other, the turn broadcasts a status
    object whose message is the class prefix followed by the text of the
    exception, sleeps 3, and ends normally; hence the loop takes every
    turn it is given and sleeps once in each, and nothing propagates out
    of it. *)
Theorem loop_survives_errors (depth : nat) (down : sock -> bool) (host : string) :
  (forall tk w e w1,
      loop_try depth down host tk w = (Raise e, w1) ->
      exists line,
        _safe_json_dumps depth (status (error_msg e) []) = Ok line
        /\ loop_turn depth down host tk w =
           (Ok tt,
            log [Sleep 3%Q] (after_broadcast down (status (error_msg e) []) line w1)))
  /\
  (forall ticks w,
      exists w1 t,
        _connect_interface_loop depth down host ticks w = (Ok tt, w1)
        /\ trace w1 = (trace w ++ t)%list
        /\ List.length (sleeps t) = List.length ticks).
Proof.
  split.
  - intros tk w e w1 H. exact (loop_turn_handles depth down host tk w e w1 H).
  - intros ticks w.
    destruct (loop_run depth down host ticks w) as (w1 & sl & Hrun & (t & Ht & _ & Hs) & L).
    exists w1, t. rewrite Hs. auto.
Qed.

Lemma loop_survives_errors_witness :
  exists line,
    _safe_json_dumps 10 (status "connect_error: boom" []) = Ok line
    /\ loop_turn 10 all_up "node" tick_refused world1 =
       (Ok tt,
        log [Sleep 3%Q]
          (after_broadcast all_up (status "connect_error: boom" []) line
             (log [Connect "node"] world1))).
Proof.
  apply (proj1 (loop_survives_errors 10 all_up "node")
           tick_refused world1 (Exc MeshInterfaceError "boom")
           (log [Connect "node"] world1)).
  reflexivity.
Defined.

(** C7, as stated, fails: the status line of a connection error holds
    the [type] and [msg] fields only, no [host]. *)
Lemma error_status_without_host :
  let w' := snd (loop_turn 10 all_up "node" tick_refused world1) in
  let line := "{" ++ json_string "type" ++ ":" ++ json_string "status" ++ ","
              ++ json_string "msg" ++ ":" ++ json_string "connect_error: boom" ++ "}" in
  trace w' =
    [Connect "node";
     Broadcast (status "connect_error: boom" []);
     SendAll 1%nat (encode_utf8 (line ++ str1 newline)) true;
     Sleep 3%Q]
  /\ field "host" (status "connect_error: boom" []) = None.
Proof. split; reflexivity. Qed.

(** C7 (amended). Every object the ingestion loop broadcasts has type
    [status] and a [msg]; the [connected], [heartbeat] and [priming]
    objects carry the upstream host as [host], the [connect_error] and
    [unexpected_error] objects carry no [host]; [stats], a snapshot
    [{total, by_channel}], is there on [heartbeat] and [priming] and on
    no other. *)
Theorem status_objects_fields (depth : nat) (down : sock -> bool) (host : string)
    (ticks : list tick) (w : world) :
  exists w1 t,
    _connect_interface_loop depth down host ticks w = (Ok tt, w1)
    /\ trace w1 = (trace w ++ t)%list
    /\ Forall (status_fields host) (broadcasts t).
Proof.
  destruct (loop_run depth down host ticks w) as (w1 & sl & Hrun & (t & Ht & Hf & _) & _).
  exists w1, t. auto.
Qed.

(** ** The event callback *)



(** ** The sanitizer on byte sequences *)

Lemma length_append s t : String.length (s ++ t) = (String.length s + String.length t)%nat.
Proof. induction s as [| a s IH]; simpl; [reflexivity | now rewrite IH]. Qed.











(** ** JSON texts: strings *)

Lemma append_assoc_s (a b c : string) : (a ++ b) ++ c = a ++ (b ++ c).
Proof. induction a as [| x a IH]; simpl; [reflexivity | now rewrite IH]. Qed.

Lemma append_empty_r (a : string) : a ++ "" = a.
Proof. induction a as [| x a IH]; simpl; [reflexivity | now rewrite IH]. Qed.

Lemma scan_string_char c r : scan_string (json_char c ++ r) = scan_string r.
Proof.
  ascii_cases c; reflexivity.
Qed.

Lemma scan_string_chars s r :
  scan_string (json_chars s ++ String dquote r) = Some r.
Proof.
  induction s as [| c s IH]; simpl.
  - reflexivity.
  - rewrite append_assoc_s, scan_string_char. exact IH.
Qed.

Lemma scan_json_string s r : scan_string (json_chars s ++ str1 dquote ++ r) = Some r.
Proof. apply scan_string_chars. Qed.

(** ** JSON texts: numbers *)

Lemma skip_digits_app s r :
  all_digits s = true -> skip_digits (s ++ r) = skip_digits r.
Proof.
  induction s as [| c s IH]; simpl; intros H; [reflexivity |].
  apply andb_prop in H. destruct H as [Hc Hs]. rewrite Hc. exact (IH Hs).
Qed.

Lemma skip_digits_stop r : no_digit_head r = true -> skip_digits r = r.
Proof.
  destruct r as [| c r]; simpl; [reflexivity |].
  intros H. apply negb_true_iff in H. rewrite H. reflexivity.
Qed.

Lemma scan_digits_app s r :
  all_digits s = true -> s <> "" -> no_digit_head r = true ->
  scan_digits (s ++ r) = Some r.
Proof.
  destruct s as [| c s]; [congruence |]. simpl. intros H _ Hr.
  apply andb_prop in H. destruct H as [Hc Hs]. rewrite Hc.
  rewrite (skip_digits_app s r Hs), (skip_digits_stop r Hr). reflexivity.
Qed.

Lemma all_digits_uint d : all_digits (NilEmpty.string_of_uint d) = true.
Proof. induction d; simpl; auto. Qed.

Lemma string_of_uint_nonempty d : d <> Decimal.Nil -> NilEmpty.string_of_uint d <> "".
Proof. destruct d; simpl; congruence. Qed.

(** The digits of a positive number do not start with [0]. *)
Lemma pos_to_uint_head p :
  exists c t,
    NilEmpty.string_of_uint (Pos.to_uint p) = String c t
    /\ is_digit c = true /\ Ascii.eqb c "0" = false /\ all_digits t = true.
Proof.
  assert (Hn : Pos.to_uint p = Decimal.nzhead (Pos.to_uint p)).
  { pose proof (DecimalPos.Unsigned.to_of (Pos.to_uint p)) as H.
    rewrite DecimalPos.Unsigned.of_to in H. simpl in H.
    rewrite H at 1. apply DecimalFacts.unorm_nzhead.
    intros Hnil. apply (DecimalPos.Unsigned.to_uint_nonzero p).
    rewrite H. apply DecimalFacts.unorm_0. exact Hnil. }
  pose proof (DecimalPos.Unsigned.to_uint_nonnil p) as Hnil.
  pose proof (DecimalFacts.nzhead_nonzero (Pos.to_uint p)) as Hz.
  rewrite <- Hn in Hz.
  destruct (Pos.to_uint p) as [| d | d | d | d | d | d | d | d | d | d];
    [congruence | exfalso; exact (Hz d eq_refl) | ..];
    simpl; do 2 eexists; (split; [reflexivity |]);
    (split; [reflexivity |]); (split; [reflexivity | apply all_digits_uint]).
Qed.

Lemma scan_int_nat n r :
  no_digit_head r = true -> scan_int (nat_repr n ++ r) = Some r.
Proof.
  intros Hr. unfold nat_repr. destruct n as [| p]; simpl.
  - reflexivity.
  - destruct (pos_to_uint_head p) as (c & t & -> & Hc & H0 & Ht).
    simpl. rewrite H0, Hc, (skip_digits_app t r Ht), (skip_digits_stop r Hr).
    reflexivity.
Qed.

Lemma delim_no_digit r : delim r = true -> no_digit_head r = true.
Proof.
  destruct r as [| c r]; simpl; [reflexivity |].
  intros H. apply orb_prop in H. destruct H as [H | H]; [apply orb_prop in H; destruct H as [H | H] |];
    apply Ascii.eqb_eq in H; subst; reflexivity.
Qed.

Lemma scan_frac_delim r : delim r = true -> scan_frac r = Some r.
Proof.
  destruct r as [| c r]; simpl; [reflexivity |].
  intros H. apply orb_prop in H. destruct H as [H | H]; [apply orb_prop in H; destruct H as [H | H] |];
    apply Ascii.eqb_eq in H; subst; reflexivity.
Qed.

Lemma scan_exp_delim r : delim r = true -> scan_exp r = Some r.
Proof.
  destruct r as [| c r]; simpl; [reflexivity |].
  intros H. apply orb_prop in H. destruct H as [H | H]; [apply orb_prop in H; destruct H as [H | H] |];
    apply Ascii.eqb_eq in H; subst; reflexivity.
Qed.

Lemma scan_number_int z r :
  delim r = true -> scan_number (int_repr z ++ r) = Some r.
Proof.
  intros Hr. pose proof (delim_no_digit r Hr) as Hd.
  unfold int_repr, scan_number. destruct z as [| p | p]; simpl.
  - rewrite (scan_frac_delim r Hr). apply scan_exp_delim, Hr.
  - destruct (pos_to_uint_head p) as (c & t & E & Hc & H0 & Ht).
    rewrite E. simpl.
    assert (Hm : Ascii.eqb c "-" = false).
    { destruct (Ascii.eqb_spec c "-") as [-> |]; [discriminate Hc | reflexivity]. }
    rewrite Hm. simpl. rewrite H0, Hc, (skip_digits_app t r Ht), (skip_digits_stop r Hd).
    rewrite (scan_frac_delim r Hr). apply scan_exp_delim, Hr.
  - change (Pos.to_uint p) with (N.to_uint (Npos p)).
    fold (nat_repr (Npos p)).
    rewrite (scan_int_nat (Npos p) r Hd).
    rewrite (scan_frac_delim r Hr). apply scan_exp_delim, Hr.
Qed.

Lemma all_digits_nat_repr n : all_digits (nat_repr n) = true.
Proof. apply all_digits_uint. Qed.

Lemma nat_repr_nonempty n : nat_repr n <> "".
Proof.
  unfold nat_repr. apply string_of_uint_nonempty.
  destruct n as [| p]; simpl; [discriminate | apply DecimalPos.Unsigned.to_uint_nonnil].
Qed.

Lemma delim_cases r :
  delim r = true ->
  r = "" \/ exists c t, r = String c t /\ (c = "," \/ c = "]" \/ c = "}")%char.
Proof.
  destruct r as [| c t]; simpl; [left; reflexivity |].
  intros H. right. exists c, t. split; [reflexivity |].
  apply orb_prop in H. destruct H as [H | H]; [apply orb_prop in H; destruct H as [H | H] |];
    apply Ascii.eqb_eq in H; auto.
Qed.

Lemma scan_exponent e r : delim r = true -> scan_exp (exponent_repr e ++ r) = Some r.
Proof.
  intros Hr. destruct e as [z |]; simpl; [| apply scan_exp_delim, Hr].
  pose proof (delim_no_digit r Hr) as Hd.
  unfold exp_repr.
  destruct (z <? 0); destruct (Z.abs z <? 10); simpl;
    rewrite ?(skip_digits_app _ r (all_digits_nat_repr _)), ?(skip_digits_stop r Hd);
    try reflexivity;
    apply scan_digits_app; auto using all_digits_nat_repr, nat_repr_nonempty.
Qed.

Lemma exponent_head e r :
  delim r = true ->
  no_digit_head (exponent_repr e ++ r) = true
  /\ scan_frac (exponent_repr e ++ r) = Some (exponent_repr e ++ r).
Proof.
  intros Hr. destruct e as [z |]; simpl.
  - split; reflexivity.
  - split; [apply delim_no_digit, Hr | apply scan_frac_delim, Hr].
Qed.

Lemma scan_frac_repr frac e r :
  delim r = true ->
  scan_frac (frac_repr frac ++ exponent_repr e ++ r) = Some (exponent_repr e ++ r).
Proof.
  intros Hr. destruct (exponent_head e r Hr) as [Hd Hf].
  unfold frac_repr.
  destruct frac; [exact Hf | ..]; simpl;
    rewrite (skip_digits_app _ _ (all_digits_uint _)), (skip_digits_stop _ Hd);
    reflexivity.
Qed.

Lemma frac_head frac e r :
  delim r = true -> no_digit_head (frac_repr frac ++ exponent_repr e ++ r) = true.
Proof.
  intros Hr. destruct frac; simpl; try reflexivity.
  apply (exponent_head e r Hr).
Qed.

Lemma scan_number_float neg ipart frac e r :
  delim r = true ->
  scan_number (float_repr (FFinite neg ipart frac e) ++ r) = Some r.
Proof.
  intros Hr. unfold float_repr.
  rewrite !append_assoc_s.
  set (X := frac_repr frac ++ exponent_repr e ++ r).
  assert (HX : no_digit_head X = true) by (apply frac_head, Hr).
  assert (Hbody : match scan_int (nat_repr ipart ++ X) with
                  | Some s1 => match scan_frac s1 with
                               | Some s2 => scan_exp s2
                               | None => None
                               end
                  | None => None
                  end = Some r).
  { rewrite (scan_int_nat ipart X HX). unfold X.
    rewrite (scan_frac_repr frac e r Hr). apply scan_exponent, Hr. }
  unfold scan_number. destruct neg; simpl.
  - exact Hbody.
  - assert (Hhead : exists c t, nat_repr ipart ++ X = String c t /\ Ascii.eqb c "-" = false).
    { unfold nat_repr. destruct ipart as [| p]; simpl.
      - do 2 eexists. split; reflexivity.
      - destruct (pos_to_uint_head p) as (c & t & -> & Hc & _ & _). simpl.
        do 2 eexists. split; [reflexivity |].
        destruct (Ascii.eqb_spec c "-") as [-> |]; [discriminate Hc | reflexivity]. }
    destruct Hhead as (c & t & E & Hm). rewrite E in *. rewrite Hm. exact Hbody.
Qed.

(** ** JSON texts: values *)

Lemma number_head_plain c :
  is_digit c || Ascii.eqb c "-" = true ->
  is_ws c = false /\ Ascii.eqb c "]" = false /\ Ascii.eqb c "}" = false.
Proof.
  ascii_cases c; simpl; intros H;
    try discriminate H; repeat split.
Qed.

Lemma scan_value_number n c t :
  is_digit c || Ascii.eqb c "-" = true ->
  scan_value (S n) (String c t) = scan_number (String c t).
Proof.
  ascii_cases c; simpl; intros H;
    try discriminate H; reflexivity.
Qed.

Lemma int_repr_head z :
  exists c t, int_repr z = String c t /\ is_digit c || Ascii.eqb c "-" = true.
Proof.
  unfold int_repr. destruct z as [| p | p]; simpl.
  - do 2 eexists. split; reflexivity.
  - destruct (pos_to_uint_head p) as (c & t & -> & Hc & _ & _).
    do 2 eexists. split; [reflexivity |]. rewrite Hc. reflexivity.
  - do 2 eexists. split; reflexivity.
Qed.

Lemma float_repr_head neg ipart frac e :
  exists c t,
    float_repr (FFinite neg ipart frac e) = String c t
    /\ is_digit c || Ascii.eqb c "-" = true.
Proof.
  unfold float_repr. destruct neg; simpl.
  - do 2 eexists. split; reflexivity.
  - unfold nat_repr. destruct ipart as [| p]; simpl.
    + do 2 eexists. split; reflexivity.
    + destruct (pos_to_uint_head p) as (c & t & -> & Hc & _ & _). simpl.
      do 2 eexists. split; [reflexivity |]. rewrite Hc. reflexivity.
Qed.

Lemma starts_value_head s :
  starts_value s = true ->
  exists c t, s = String c t
              /\ is_ws c = false /\ Ascii.eqb c "]" = false /\ Ascii.eqb c "}" = false.
Proof.
  destruct s as [| c t]; simpl; [discriminate |].
  intros H. apply negb_true_iff in H.
  apply orb_false_iff in H. destruct H as [H H3].
  apply orb_false_iff in H. destruct H as [H1 H2].
  exists c, t. auto.
Qed.

Lemma scan_value_string n t : scan_value (S n) (String dquote t) = scan_string t.
Proof. reflexivity. Qed.

Lemma scan_value_array n c t :
  is_ws c = false -> Ascii.eqb c "]" = false ->
  scan_value (S n) (String "[" (String c t)) = scan_elements n (String c t).
Proof.
  intros Hw Hc.
  change (scan_value (S n) (String "[" (String c t)))
    with (match skip_ws (String c t) with
          | String c' r' =>
              if Ascii.eqb c' "]" then Some r' else scan_elements n (String c t)
          | EmptyString => None
          end).
  simpl skip_ws. rewrite Hw, Hc. reflexivity.
Qed.

Lemma scan_value_object n t :
  scan_value (S n) (String "{" (String dquote t)) = scan_members n (String dquote t).
Proof. reflexivity. Qed.

Lemma scan_elements_step n s r c r' :
  scan_value n s = Some r ->
  skip_ws r = String c r' ->
  scan_elements (S n) s =
  if Ascii.eqb c "," then scan_elements n r'
  else if Ascii.eqb c "]" then Some r' else None.
Proof. intros H1 H2. simpl. rewrite H1, H2. reflexivity. Qed.

Lemma scan_members_step n k x r c r' :
  scan_value n x = Some r ->
  skip_ws r = String c r' ->
  scan_members (S n) (json_string k ++ ":" ++ x) =
  if Ascii.eqb c "," then scan_members n r'
  else if Ascii.eqb c "}" then Some r' else None.
Proof.
  intros H1 H2. unfold json_string.
  change (scan_members (S n) (String dquote (json_chars k ++ str1 dquote) ++ ":" ++ x))
    with (match scan_string ((json_chars k ++ str1 dquote) ++ ":" ++ x) with
          | Some r1 =>
              match skip_ws r1 with
              | String c r2 =>
                  if Ascii.eqb c ":" then
                    match scan_value n r2 with
                    | Some r3 =>
                        match skip_ws r3 with
                        | String c' r4 =>
                            if Ascii.eqb c' "," then scan_members n r4
                            else if Ascii.eqb c' "}" then Some r4 else None
                        | EmptyString => None
                        end
                    | None => None
                    end
                  else None
              | EmptyString => None
              end
          | None => None
          end).
  rewrite append_assoc_s, scan_json_string.
  simpl skip_ws. simpl Ascii.eqb. cbv iota. rewrite H1, H2. reflexivity.
Qed.

Lemma starts_value_app s t : starts_value s = true -> starts_value (s ++ t) = true.
Proof. destruct s; simpl; [discriminate | auto]. Qed.

Lemma join_cons sep p q ps : join sep (p :: q :: ps) = p ++ sep ++ join sep (q :: ps).
Proof. reflexivity. Qed.

Lemma mapM_cons_inv {A B} (f : A -> result B) x xs parts :
  mapM f (x :: xs) = Ok parts ->
  exists p ps, f x = Ok p /\ mapM f xs = Ok ps /\ parts = p :: ps.
Proof.
  simpl. destruct (f x) as [p |]; simpl; [| discriminate].
  destruct (mapM f xs) as [ps |]; simpl; [| discriminate].
  intros H. injection H as <-. eauto.
Qed.

Lemma dumps_elements xs :
  Forall scans xs ->
  forall parts,
    forallb finite_floats xs = true ->
    mapM (json_dumps "," ":") xs = Ok parts ->
    parts <> [] ->
    starts_value (join "," parts) = true
    /\ forall rest fuel,
         (String.length (join "," parts) + 1 < fuel)%nat ->
         scan_elements fuel (join "," parts ++ "]" ++ rest) = Some rest.
Proof.
  induction 1 as [| x xs Hx Hxs IH]; intros parts Hfin Hm Hne.
  - simpl in Hm. injection Hm as <-. congruence.
  - destruct (mapM_cons_inv _ x xs parts Hm) as (p & ps & Hp & Hps & ->).
    simpl in Hfin. apply andb_prop in Hfin. destruct Hfin as [Hfx Hfxs].
    destruct (Hx p Hfx Hp) as [Hstart Hscan].
    destruct ps as [| q ps].
    + cbn [join]. split; [exact Hstart |].
      intros rest fuel Hfuel. destruct fuel as [| m]; [lia |].
      rewrite (scan_elements_step m (p ++ "]" ++ rest) ("]" ++ rest) "]" rest).
      * reflexivity.
      * apply Hscan; [reflexivity | lia].
      * reflexivity.
    + destruct (IH (q :: ps) Hfxs Hps) as [_ IHscan]; [discriminate |].
      rewrite join_cons. set (J := join "," (q :: ps)) in *.
      split; [apply starts_value_app, Hstart |].
      intros rest fuel Hfuel. destruct fuel as [| m]; [lia |].
      rewrite !length_append in Hfuel. simpl String.length in Hfuel.
      rewrite !append_assoc_s.
      rewrite (scan_elements_step m _ ("," ++ J ++ "]" ++ rest)
                 "," (J ++ "]" ++ rest)).
      * simpl. apply IHscan. lia.
      * apply Hscan; [reflexivity | lia].
      * reflexivity.
Qed.

Lemma dumps_members kvs :
  Forall (fun kv => scans (fst kv) /\ scans (snd kv)) kvs ->
  forall parts,
    forallb (fun kv => finite_floats (snd kv)) kvs = true ->
    mapM (fun kv =>
            k <- json_key (fst kv) ;;
            x <- json_dumps "," ":" (snd kv) ;;
            Ok (json_string k ++ ":" ++ x)) kvs = Ok parts ->
    parts <> [] ->
    (exists t, join "," parts = String dquote t)
    /\ forall rest fuel,
         (String.length (join "," parts) + 1 < fuel)%nat ->
         scan_members fuel (join "," parts ++ "}" ++ rest) = Some rest.
Proof.
  induction 1 as [| kv kvs Hkv Hkvs IH]; intros parts Hfin Hm Hne.
  - simpl in Hm. injection Hm as <-. congruence.
  - destruct (mapM_cons_inv _ kv kvs parts Hm) as (p & ps & Hp & Hps & ->).
    simpl in Hfin. apply andb_prop in Hfin. destruct Hfin as [Hfx Hfxs].
    destruct (json_key (fst kv)) as [k |]; cbn [bind] in Hp; [| discriminate].
    destruct (json_dumps "," ":" (snd kv)) as [x |] eqn:Ex; cbn [bind] in Hp; [| discriminate].
    assert (Ep : p = json_string k ++ ":" ++ x) by congruence.
    clear Hp. subst p.
    destruct (proj2 Hkv x Hfx Ex) as [_ Hscan].
    destruct ps as [| q ps].
    + cbn [join]. split; [eexists; reflexivity |].
      intros rest fuel Hfuel. destruct fuel as [| m]; [lia |].
      rewrite !length_append in Hfuel. simpl String.length in Hfuel.
      rewrite !append_assoc_s.
      rewrite (scan_members_step m k (x ++ "}" ++ rest) ("}" ++ rest) "}" rest).
      * reflexivity.
      * apply Hscan; [reflexivity | lia].
      * reflexivity.
    + destruct (IH (q :: ps) Hfxs Hps) as [_ IHscan]; [discriminate |].
      rewrite join_cons. set (J := join "," (q :: ps)) in *.
      split; [eexists; reflexivity |].
      intros rest fuel Hfuel. destruct fuel as [| m]; [lia |].
      rewrite !length_append in Hfuel. simpl String.length in Hfuel.
      rewrite !append_assoc_s.
      rewrite (scan_members_step m k _ ("," ++ J ++ "}" ++ rest)
                 "," (J ++ "}" ++ rest)).
      * simpl. apply IHscan. lia.
      * apply Hscan; [reflexivity | lia].
      * reflexivity.
Qed.

Lemma scans_array xs : Forall scans xs ->
  forall s,
    forallb finite_floats xs = true ->
    (parts <- mapM (json_dumps "," ":") xs ;; Ok ("[" ++ join "," parts ++ "]")) = Ok s ->
    starts_value s = true
    /\ forall rest fuel,
         delim rest = true ->
         (String.length s < fuel)%nat ->
         scan_value fuel (s ++ rest) = Some rest.
Proof.
  intros Hxs s Hfin Hd.
  destruct (mapM (json_dumps "," ":") xs) as [parts |] eqn:Hm; cbn [bind] in Hd;
    [| discriminate].
  assert (Es : s = "[" ++ join "," parts ++ "]") by congruence.
  clear Hd. subst s. split; [reflexivity |].
  intros rest fuel _ Hfuel. destruct fuel as [| n]; [lia |].
  destruct parts as [| p ps].
  - reflexivity.
  - destruct (dumps_elements xs Hxs (p :: ps) Hfin Hm) as [Hstart Hscan]; [discriminate |].
    destruct (starts_value_head _ Hstart) as (c & t & E & Hw & Hc & _).
    set (J := join "," (p :: ps)) in *.
    rewrite !length_append in Hfuel. simpl String.length in Hfuel.
    rewrite !append_assoc_s.
    change ("[" ++ J ++ "]" ++ rest) with (String "[" (J ++ "]" ++ rest)).
    pose proof (Hscan rest n) as Hs. rewrite E in Hs |- *.
    change (String c t ++ "]" ++ rest) with (String c (t ++ "]" ++ rest)) in Hs |- *.
    rewrite (scan_value_array n c _ Hw Hc). apply Hs. rewrite <- E. lia.
Qed.

(** Every value scans. *)
Lemma dumps_scans v : scans v.
Proof.
  induction v using pyval_induction; unfold scans; intros out Hfin Hd.
  - injection Hd as <-. split; [reflexivity |].
    intros rest [| n] _ Hf; [simpl in Hf; lia | reflexivity].
  - injection Hd as <-. split; [destruct b; reflexivity |].
    intros rest [| n] _ Hf; [simpl in Hf; lia | destruct b; reflexivity].
  - assert (Es : out = int_repr z) by (cbn [json_dumps] in Hd; congruence).
    clear Hd. subst out.
    destruct (int_repr_head z) as (c & t & E & Hc).
    destruct (number_head_plain c Hc) as (Hw & H1 & H2).
    split; [rewrite E; simpl; rewrite Hw, H1, H2; reflexivity |].
    intros rest [| n] Hr Hf; [lia |].
    pose proof (scan_number_int z rest Hr) as Hn.
    rewrite E in Hn |- *.
    change (String c t ++ rest) with (String c (t ++ rest)) in Hn |- *.
    rewrite (scan_value_number n c _ Hc). exact Hn.
  - destruct f as [| neg | neg ipart frac e]; try discriminate Hfin.
    assert (Es : out = float_repr (FFinite neg ipart frac e))
      by (cbn [json_dumps json_float] in Hd; congruence).
    clear Hd. subst out.
    destruct (float_repr_head neg ipart frac e) as (c & t & E & Hc).
    destruct (number_head_plain c Hc) as (Hw & H1 & H2).
    split; [rewrite E; simpl; rewrite Hw, H1, H2; reflexivity |].
    intros rest [| n] Hr Hf; [lia |].
    pose proof (scan_number_float neg ipart frac e rest Hr) as Hn.
    rewrite E in Hn |- *.
    change (String c t ++ rest) with (String c (t ++ rest)) in Hn |- *.
    rewrite (scan_value_number n c _ Hc). exact Hn.
  - assert (Es : out = json_string s) by (cbn [json_dumps] in Hd; congruence).
    clear Hd. subst out. split; [reflexivity |].
    intros rest [| n] _ Hf; [lia |].
    unfold json_string.
    change (String dquote (json_chars s ++ str1 dquote) ++ rest)
      with (String dquote ((json_chars s ++ str1 dquote) ++ rest)).
    rewrite scan_value_string, append_assoc_s. apply scan_json_string.
  - discriminate Hd.
  - exact (scans_array xs H out Hfin Hd).
  - exact (scans_array xs H out Hfin Hd).
  - discriminate Hd.
  - simpl in Hfin. cbn [json_dumps] in Hd.
    destruct (mapM _ kvs) as [parts |] eqn:Hm; cbn [bind] in Hd; [| discriminate].
    assert (Es : out = "{" ++ join "," parts ++ "}") by congruence.
    clear Hd. subst out. split; [reflexivity |].
    intros rest fuel _ Hfuel. destruct fuel as [| n]; [lia |].
    destruct parts as [| p ps].
    + reflexivity.
    + destruct (dumps_members kvs H (p :: ps) Hfin Hm) as [[t E] Hscan]; [discriminate |].
      set (J := join "," (p :: ps)) in *.
      rewrite !length_append in Hfuel. simpl String.length in Hfuel.
      rewrite !append_assoc_s.
      change ("{" ++ J ++ "}" ++ rest) with (String "{" (J ++ "}" ++ rest)).
      pose proof (Hscan rest n) as Hs. rewrite E in Hs |- *.
      change (String dquote t ++ "}" ++ rest) with (String dquote (t ++ "}" ++ rest)) in Hs |- *.
      rewrite scan_value_object. apply Hs. rewrite <- E. lia.
  - discriminate Hd.
  - discriminate Hd.
  - discriminate Hd.
  - discriminate Hd.
Qed.

(** ** What the sanitizer returns *)

Lemma mapM_forallb {A B} (f : A -> result B) (q : B -> bool) xs ys :
  (forall x y, f x = Ok y -> q y = true) ->
  mapM f xs = Ok ys -> forallb q ys = true.
Proof.
  intros Hf. revert ys. induction xs as [| x xs IH]; intros ys H.
  - simpl in H. injection H as <-. reflexivity.
  - destruct (mapM_cons_inv f x xs ys H) as (p & ps & Hp & Hps & ->).
    simpl. rewrite (Hf x p Hp), (IH ps Hps). reflexivity.
Qed.

Lemma dict_set_finite s v acc :
  finite_floats v = true ->
  forallb (fun kv => finite_floats (snd kv)) acc = true ->
  forallb (fun kv => finite_floats (snd kv)) (dict_set s v acc) = true.
Proof.
  intros Hv. induction acc as [| [k v0] acc IH]; simpl; intros H.
  - rewrite Hv. reflexivity.
  - apply andb_prop in H. destruct H as [H0 H].
    destruct (key_is s k); simpl; [rewrite Hv, H | rewrite H0, (IH H)]; reflexivity.
Qed.

Lemma dict_comp_finite f kvs acc r :
  (forall x y, f x = Ok y -> finite_floats y = true) ->
  forallb (fun kv => finite_floats (snd kv)) acc = true ->
  dict_comp f kvs acc = Ok r ->
  forallb (fun kv => finite_floats (snd kv)) r = true.
Proof.
  intros Hf. revert acc. induction kvs as [| [k v] kvs IH]; intros acc Hacc H; simpl in H.
  - injection H as <-. exact Hacc.
  - destruct (f k) as [k' |]; cbn [bind] in H; [| discriminate].
    destruct (f v) as [v' |] eqn:Ev; cbn [bind] in H; [| discriminate].
    apply (IH _ (dict_set_finite (py_str k') v' acc (Hf v v' Ev) Hacc) H).
Qed.

(** [_sanitize] leaves no NaN and no infinity behind. *)
Lemma sanitize_finite d : forall v w, _sanitize d v = Ok w -> finite_floats w = true.
Proof.
  induction d as [| d IH]; intros v w H; [discriminate |].
  destruct v; simpl in H.
  - injection H as <-. reflexivity.
  - injection H as <-. reflexivity.
  - injection H as <-. reflexivity.
  - destruct f; injection H as <-; reflexivity.
  - injection H as <-. reflexivity.
  - injection H as <-. reflexivity.
  - destruct (mapM (_sanitize d) xs) as [ys |] eqn:E; cbn [bind] in H; [| discriminate].
    injection H as <-. simpl. exact (mapM_forallb _ _ xs ys IH E).
  - destruct (mapM (_sanitize d) xs) as [ys |] eqn:E; cbn [bind] in H; [| discriminate].
    injection H as <-. simpl. exact (mapM_forallb _ _ xs ys IH E).
  - destruct (mapM (_sanitize d) xs) as [ys |] eqn:E; cbn [bind] in H; [| discriminate].
    injection H as <-. simpl. exact (mapM_forallb _ _ xs ys IH E).
  - destruct (dict_comp (_sanitize d) kvs []) as [r |] eqn:E; cbn [bind] in H; [| discriminate].
    injection H as <-. simpl. exact (dict_comp_finite _ kvs [] r IH eq_refl E).
  - unfold try_except in H. destruct conv as [m |].
    + destruct (_sanitize d m) as [y |] eqn:E; injection H as <-; [exact (IH m y E) | reflexivity].
    + injection H as <-. reflexivity.
  - destruct attrs as [kvs |]; [| injection H as <-; reflexivity].
    unfold try_except in H.
    destruct (_sanitize d (PDict kvs)) as [y |] eqn:E; injection H as <-;
      [exact (IH _ y E) | reflexivity].
Qed.

(** ** The serializer *)

Lemma fallback_dumps e :
  json_dumps ", " ": "
    (PDict [(PStr "type", PStr "status");
            (PStr "msg", PStr ("serialization_error: " ++ e_msg e))])
  = Ok (fallback_line e).
Proof. reflexivity. Qed.

Lemma fallback_scans e n :
  scan_value (S (S (S (S n)))) (fallback_line e) = Some "".
Proof.
  unfold fallback_line. cbn. rewrite append_assoc_s, scan_json_string. reflexivity.
Qed.

Lemma fallback_valid e : json_valid (fallback_line e) = true.
Proof.
  unfold json_valid.
  destruct (String.length (fallback_line e)) as [| [| [| k]]] eqn:E;
    try (cbn in E; discriminate E).
  rewrite fallback_scans. reflexivity.
Qed.

Lemma compact_valid v s :
  finite_floats v = true -> json_dumps "," ":" v = Ok s -> json_valid s = true.
Proof.
  intros Hfin Hd. destruct (dumps_scans v s Hfin Hd) as [_ Hscan].
  unfold json_valid.
  pose proof (Hscan "" (S (String.length s)) eq_refl (Nat.lt_succ_diag_r _)) as H.
  rewrite append_empty_r in H. rewrite H. reflexivity.
Qed.

(** C1. [_safe_json_dumps] always returns, and what it returns is a
    valid JSON text: the compact encoding of the sanitized value when
    sanitizing and encoding go through, and otherwise the status object
    that describes the exception. *)
Theorem safe_json_dumps_valid (depth : nat) (obj : pyval) :
  exists line,
    _safe_json_dumps depth obj = Ok line
    /\ json_valid line = true
    /\ (forall v s,
          _sanitize depth obj = Ok v -> json_dumps "," ":" v = Ok s -> line = s)
    /\ (forall e,
          (v <- _sanitize depth obj ;; json_dumps "," ":" v) = Raise e ->
          line = fallback_line e).
Proof.
  unfold _safe_json_dumps, try_except.
  destruct (_sanitize depth obj) as [v | e] eqn:Es; cbn [bind].
  - destruct (json_dumps "," ":" v) as [s | e] eqn:Ed.
    + exists s. split; [reflexivity |].
      split; [exact (compact_valid v s (sanitize_finite depth obj v Es) Ed) |].
      split; [intros v' s' Hv Hs; congruence | intros e H; discriminate H].
    + exists (fallback_line e). split; [apply fallback_dumps |].
      split; [apply fallback_valid |].
      split; [intros v' s' Hv Hs; congruence | intros e' H; congruence].
  - exists (fallback_line e). split; [apply fallback_dumps |].
    split; [apply fallback_valid |].
    split; [intros v' s' Hv Hs; discriminate Hv | intros e' H; congruence].
Qed.

(** ** No raw newline in a serialized line *)

Lemma contains_app c s t : contains c (s ++ t) = contains c s || contains c t.
Proof.
  induction s as [| a s IH]; simpl; [reflexivity |].
  rewrite IH. apply orb_assoc.
Qed.

Lemma json_char_no_newline c : contains newline (json_char c) = false.
Proof. ascii_cases c; reflexivity. Qed.

Lemma json_string_no_newline s : contains newline (json_string s) = false.
Proof.
  unfold json_string. simpl. rewrite contains_app. simpl.
  induction s as [| c s IH]; simpl; [reflexivity |].
  rewrite contains_app, json_char_no_newline. exact IH.
Qed.

Lemma digit_not_newline c : is_digit c = true -> Ascii.eqb newline c = false.
Proof. ascii_cases c; simpl; intros H; try discriminate H; reflexivity. Qed.

Lemma digits_no_newline s : all_digits s = true -> contains newline s = false.
Proof.
  induction s as [| c s IH]; cbn [contains all_digits]; intros H; [reflexivity |].
  apply andb_prop in H. destruct H as [Hc Hs].
  rewrite (digit_not_newline c Hc), (IH Hs). reflexivity.
Qed.

Lemma nat_repr_no_newline n : contains newline (nat_repr n) = false.
Proof. apply digits_no_newline, all_digits_nat_repr. Qed.

Lemma int_repr_no_newline z : contains newline (int_repr z) = false.
Proof.
  unfold int_repr. destruct z; simpl;
    try apply digits_no_newline; try apply all_digits_uint; reflexivity.
Qed.

Lemma json_float_no_newline f : contains newline (json_float f) = false.
Proof.
  destruct f as [| neg | neg ipart frac e]; simpl; [reflexivity | destruct neg; reflexivity |].
  rewrite !contains_app, nat_repr_no_newline.
  assert (Hf : contains newline (frac_repr frac) = false).
  { unfold frac_repr.
    destruct frac; [reflexivity | ..];
      rewrite contains_app; apply digits_no_newline, all_digits_uint. }
  assert (He : contains newline (exponent_repr e) = false).
  { destruct e as [z |]; simpl; [| reflexivity]. unfold exp_repr.
    destruct (z <? 0); destruct (Z.abs z <? 10); simpl;
      apply nat_repr_no_newline. }
  rewrite Hf, He. destruct neg; reflexivity.
Qed.

Lemma join_no_newline sep parts :
  contains newline sep = false ->
  forallb (fun p => negb (contains newline p)) parts = true ->
  contains newline (join sep parts) = false.
Proof.
  intros Hsep. induction parts as [| p ps IH]; intros H; [reflexivity |].
  simpl in H. apply andb_prop in H. destruct H as [Hp Hps].
  apply negb_true_iff in Hp.
  destruct ps as [| q ps]; [exact Hp |].
  rewrite join_cons, !contains_app, Hp, Hsep, (IH Hps). reflexivity.
Qed.


Lemma mapM_forallb_in {A B} (f : A -> result B) (q : B -> bool) xs ys :
  Forall (fun x => forall y, f x = Ok y -> q y = true) xs ->
  mapM f xs = Ok ys -> forallb q ys = true.
Proof.
  intros Hf. revert ys. induction Hf as [| x xs Hx _ IH]; intros ys H.
  - simpl in H. injection H as <-. reflexivity.
  - destruct (mapM_cons_inv f x xs ys H) as (p & ps & Hp & Hps & ->).
    simpl. rewrite (Hx p Hp), (IH ps Hps). reflexivity.
Qed.

Lemma dumps_array_no_newline item_sep key_sep xs out :
  contains newline item_sep = false ->
  Forall (fun v => forall s, json_dumps item_sep key_sep v = Ok s ->
                             contains newline s = false) xs ->
  (parts <- mapM (json_dumps item_sep key_sep) xs ;;
   Ok ("[" ++ join item_sep parts ++ "]")) = Ok out ->
  contains newline out = false.
Proof.
  intros Hi H Hd.
  destruct (mapM _ xs) as [parts |] eqn:Hm; cbn [bind] in Hd; [| discriminate].
  assert (out = "[" ++ join item_sep parts ++ "]") as -> by congruence.
  cbn [append contains Ascii.eqb Bool.eqb newline].
  rewrite contains_app, (join_no_newline item_sep parts Hi); [reflexivity |].
  apply (mapM_forallb_in _ _ xs parts) with (2 := Hm).
  apply Forall_impl with (2 := H). intros v Hv y Hy. rewrite (Hv y Hy). reflexivity.
Qed.

Lemma dumps_no_newline item_sep key_sep :
  contains newline item_sep = false ->
  contains newline key_sep = false ->
  forall v s, json_dumps item_sep key_sep v = Ok s -> contains newline s = false.
Proof.
  intros Hi Hk v.
  induction v using pyval_induction; intros out Hd; cbn [json_dumps] in Hd;
    try discriminate Hd.
  - injection Hd as <-. reflexivity.
  - injection Hd as <-. destruct b; reflexivity.
  - assert (out = int_repr z) as -> by congruence. apply int_repr_no_newline.
  - assert (out = json_float f) as -> by congruence. apply json_float_no_newline.
  - assert (out = json_string s) as -> by congruence. apply json_string_no_newline.
  - exact (dumps_array_no_newline item_sep key_sep xs out Hi H Hd).
  - exact (dumps_array_no_newline item_sep key_sep xs out Hi H Hd).
  - destruct (mapM _ kvs) as [parts |] eqn:Hm; cbn [bind] in Hd; [| discriminate].
    assert (out = "{" ++ join item_sep parts ++ "}") as -> by congruence.
    cbn [append contains Ascii.eqb Bool.eqb newline].
    rewrite contains_app, (join_no_newline item_sep parts Hi); [reflexivity |].
    apply (mapM_forallb_in _ _ kvs parts) with (2 := Hm).
    apply Forall_impl with (2 := H). intros kv [_ Hv] y Hy.
    destruct (json_key (fst kv)) as [k |]; cbn [bind] in Hy; [| discriminate].
    destruct (json_dumps item_sep key_sep (snd kv)) as [x |] eqn:Ex; cbn [bind] in Hy;
      [| discriminate].
    assert (y = json_string k ++ key_sep ++ x) as -> by congruence.
    rewrite !contains_app, json_string_no_newline, Hk, (Hv x eq_refl). reflexivity.
Qed.

Lemma safe_json_dumps_no_newline depth obj line :
  _safe_json_dumps depth obj = Ok line -> contains newline line = false.
Proof.
  unfold _safe_json_dumps, try_except. intros H.
  destruct (v <- _sanitize depth obj ;; json_dumps "," ":" v) as [s | e] eqn:E.
  - injection H as <-. destruct (_sanitize depth obj) as [v |]; cbn [bind] in E;
      [| discriminate].
    exact (dumps_no_newline "," ":" eq_refl eq_refl v s E).
  - exact (dumps_no_newline ", " ": " eq_refl eq_refl _ line H).
Qed.

(** ** The fan-out *)

(** C4. [_broadcast_json] writes to every client registered at the call,
    in registry order, the same bytes: the serialized line, which holds
    no newline, followed by one newline.  The clients whose write failed
    are removed and closed only after all the writes, and the registry
    is left with exactly the clients whose write succeeded. *)
Theorem broadcast_fanout (depth : nat) (down : sock -> bool) (obj : pyval)
    (clients : list sock) :
  exists line,
    _safe_json_dumps depth obj = Ok line
    /\ contains newline line = false
    /\ let data := (encode_utf8 line ++ ["010"%byte])%list in
       _broadcast_json depth down obj clients =
       Ok (filter (fun s => negb (down s)) clients,
           Broadcast obj
           :: (map (fun s => SendAll s data (negb (down s))) clients
               ++ map Close (filter down clients))%list).
Proof.
  destruct (safe_json_dumps_returns depth obj) as [line Hline].
  pose proof (safe_json_dumps_no_newline depth obj line Hline) as Hnl.
  exists line. split; [exact Hline |]. split; [exact Hnl |].
  cbv zeta. rewrite (broadcast_json_run depth down obj clients line Hline).
  rewrite (rstrip_absent newline line Hnl).
  unfold encode_utf8. rewrite list_byte_of_string_app. reflexivity.
Qed.

(** ** The sanitizer returns when the stack is deep enough *)

Lemma list_max_le_in (l : list nat) n : In n l -> (n <= list_max l)%nat.
Proof.
  induction l as [| a l IH]; simpl; intros H; [destruct H |].
  destruct H as [-> | H]; [lia | specialize (IH H); lia].
Qed.








(* ================================================================== *)
(** * Further properties *)

(** ** The shape of sanitized values *)

Lemma has_key_set_other s s' v d :
  s <> s' -> has_key s' (dict_set s v d) = has_key s' d.
Proof.
  intros Hne. unfold has_key. induction d as [| [k v0] d IH]; simpl.
  - destruct (String.eqb_spec s' s); [congruence | reflexivity].
  - destruct (key_is s k) eqn:E; simpl; [reflexivity | now rewrite IH].
Qed.


Lemma dict_set_absent s v d :
  has_key s d = false -> dict_set s v d = (d ++ [(PStr s, v)])%list.
Proof.
  unfold has_key. induction d as [| [k v0] d IH]; simpl; intros H; [reflexivity |].
  apply orb_false_iff in H. destruct H as [Hk Hd]. rewrite Hk, (IH Hd). reflexivity.
Qed.

Lemma dict_set_distinct s v d :
  distinct_str_keys d = true -> distinct_str_keys (dict_set s v d) = true.
Proof.
  induction d as [| [k v0] d IH]; simpl; intros H; [reflexivity |].
  destruct k; try discriminate H.
  apply andb_prop in H. destruct H as [Hk Hd].
  simpl. destruct (String.eqb_spec s s0) as [-> | Hne]; simpl.
  - rewrite Hk, Hd. reflexivity.
  - rewrite (has_key_set_other s s0 v d Hne), Hk, (IH Hd). reflexivity.
Qed.

Lemma dict_set_forallb (q : pyval -> bool) s v d :
  q v = true ->
  forallb (fun kv => q (snd kv)) d = true ->
  forallb (fun kv => q (snd kv)) (dict_set s v d) = true.
Proof.
  intros Hv. induction d as [| [k v0] d IH]; simpl; intros H.
  - rewrite Hv. reflexivity.
  - apply andb_prop in H. destruct H as [H0 H].
    destruct (key_is s k); simpl; [rewrite Hv, H | rewrite H0, (IH H)]; reflexivity.
Qed.

Lemma dict_comp_shape f (q : pyval -> bool) kvs :
  (forall x y, f x = Ok y -> q y = true) ->
  forall acc r,
    distinct_str_keys acc = true ->
    forallb (fun kv => q (snd kv)) acc = true ->
    dict_comp f kvs acc = Ok r ->
    distinct_str_keys r = true /\ forallb (fun kv => q (snd kv)) r = true.
Proof.
  intros Hf. induction kvs as [| [k v] kvs IH]; intros acc r Hd Hq H; simpl in H.
  - injection H as <-. auto.
  - destruct (f k) as [k' |]; cbn [bind] in H; [| discriminate].
    destruct (f v) as [v' |] eqn:Ev; cbn [bind] in H; [| discriminate].
    apply (IH (dict_set (py_str k') v' acc) r).
    + apply dict_set_distinct, Hd.
    + apply dict_set_forallb; [exact (Hf v v' Ev) | exact Hq].
    + exact H.
Qed.

Lemma sanitize_sanitized (d : nat) :
  forall v w, _sanitize d v = Ok w -> sanitized w = true.
Proof.
  induction d as [| d IH]; intros v w H; [discriminate |].
  destruct v; simpl in H.
  - injection H as <-. reflexivity.
  - injection H as <-. reflexivity.
  - injection H as <-. reflexivity.
  - destruct f; injection H as <-; reflexivity.
  - injection H as <-. reflexivity.
  - injection H as <-. reflexivity.
  - destruct (mapM (_sanitize d) xs) as [ys |] eqn:E; cbn [bind] in H; [| discriminate].
    injection H as <-. simpl. exact (mapM_forallb _ _ xs ys IH E).
  - destruct (mapM (_sanitize d) xs) as [ys |] eqn:E; cbn [bind] in H; [| discriminate].
    injection H as <-. simpl. exact (mapM_forallb _ _ xs ys IH E).
  - destruct (mapM (_sanitize d) xs) as [ys |] eqn:E; cbn [bind] in H; [| discriminate].
    injection H as <-. simpl. exact (mapM_forallb _ _ xs ys IH E).
  - destruct (dict_comp (_sanitize d) kvs []) as [r |] eqn:E; cbn [bind] in H; [| discriminate].
    injection H as <-. simpl.
    destruct (dict_comp_shape (_sanitize d) sanitized kvs IH [] r eq_refl eq_refl E) as [H1 H2].
    rewrite H1, H2. reflexivity.
  - unfold try_except in H. destruct conv as [m |].
    + destruct (_sanitize d m) as [y |] eqn:E; injection H as <-; [exact (IH m y E) | reflexivity].
    + injection H as <-. reflexivity.
  - destruct attrs as [kvs |]; [| injection H as <-; reflexivity].
    unfold try_except in H.
    destruct (_sanitize d (PDict kvs)) as [y |] eqn:E; injection H as <-;
      [exact (IH _ y E) | reflexivity].
Qed.

(** X1. Whatever [_sanitize] returns is built from [None], booleans,
    integers, finite floats, strings, lists and dicts whose keys are
    pairwise distinct strings, and objects without [__dict__]: no
    [bytes], tuple, set, protobuf message, NaN or infinity is left. *)
Theorem sanitize_shape (d : nat) (v w : pyval) :
  _sanitize d v = Ok w -> sanitized w = true.
Proof. apply sanitize_sanitized. Qed.

Lemma sanitize_shape_witness :
  sanitized
    (PDict
       [(PStr "payload", PStr "01ff");
        (PStr "7", PNone);
        (PStr "snr", PFloat (FFinite true 1 (Decimal.D5 Decimal.Nil) (Some (-7))));
        (PStr "seen", PList [PList [PInt 1; PBool true]]);
        (PStr "node", PDict [(PStr "id", PInt 5)]);
        (PStr "proto", PDict [(PStr "_proto_repr", PStr "id: 5")])]) = true.
Proof. apply (sanitize_shape 5 sample_value). reflexivity. Defined.

(** ** Sanitizing twice *)

Lemma mapM_id {A} (f : A -> result A) xs :
  Forall (fun x => f x = Ok x) xs -> mapM f xs = Ok xs.
Proof.
  induction 1 as [| x xs Hx _ IH]; simpl; [reflexivity |].
  rewrite Hx, IH. reflexivity.
Qed.

Lemma has_key_app s (d1 d2 : pydict) :
  has_key s (d1 ++ d2)%list = has_key s d1 || has_key s d2.
Proof. unfold has_key. apply existsb_app. Qed.

Lemma dict_comp_id f kvs :
  distinct_str_keys kvs = true ->
  Forall (fun kv => f (fst kv) = Ok (fst kv) /\ f (snd kv) = Ok (snd kv)) kvs ->
  forall acc,
    (forall s, has_key s kvs = true -> has_key s acc = false) ->
    dict_comp f kvs acc = Ok (acc ++ kvs)%list.
Proof.
  intros Hd Hf. induction Hf as [| [k v] kvs [Hk Hv] _ IH]; intros acc Hacc.
  - simpl. rewrite List.app_nil_r. reflexivity.
  - simpl in Hd, Hk, Hv. destruct k; try discriminate Hd.
    apply andb_prop in Hd. destruct Hd as [Hnew Hd].
    apply negb_true_iff in Hnew.
    simpl. rewrite Hk, Hv. simpl.
    rewrite dict_set_absent.
    + rewrite (IH Hd); [rewrite <- List.app_assoc; reflexivity |].
      intros s0 Hs0. rewrite has_key_app. apply orb_false_iff. split.
      * apply Hacc. unfold has_key in *. simpl. rewrite Hs0. apply orb_true_r.
      * unfold has_key. simpl. rewrite orb_false_r.
        destruct (String.eqb_spec s0 s) as [-> | _]; [congruence | reflexivity].
    + apply Hacc. unfold has_key. simpl. rewrite String.eqb_refl. reflexivity.
Qed.

(** A sanitized value is left as it is, once the stack is deep enough. *)
Lemma sanitized_fixed w :
  sanitized w = true -> forall d, (height w < d)%nat -> _sanitize d w = Ok w.
Proof.
  induction w using pyval_induction; intros Hs [| d] Hd; try lia;
    try discriminate Hs; try reflexivity.
  - destruct f; try discriminate Hs. reflexivity.
  - simpl in *. rewrite (mapM_id (_sanitize d) xs); [reflexivity |].
    rewrite Forall_forall in *. intros x Hx. apply (H x Hx).
    + rewrite forallb_forall in Hs. exact (Hs x Hx).
    + pose proof (list_max_le_in _ _ (in_map height xs x Hx)). lia.
  - simpl in *. apply andb_prop in Hs. destruct Hs as [Hkeys Hvals].
    rewrite (dict_comp_id (_sanitize d) kvs Hkeys); [reflexivity | | intros; reflexivity].
    rewrite Forall_forall in *. intros kv Hkv. destruct (H kv Hkv) as [_ Hv].
    pose proof (list_max_le_in _ _
                  (in_map (fun kv => Nat.max (height (fst kv)) (height (snd kv))) kvs kv Hkv))
      as Hle.
    split.
    + assert (Hk : exists s, fst kv = PStr s).
      { clear -Hkeys Hkv. induction kvs as [| [k v] kvs IH]; [destruct Hkv |].
        simpl in Hkeys. destruct k; try discriminate Hkeys.
        apply andb_prop in Hkeys. destruct Hkeys as [_ Hkeys].
        destruct Hkv as [<- | Hin]; [eexists; reflexivity | exact (IH Hkeys Hin)]. }
      destruct Hk as [s Hk]. rewrite Hk. destruct d; [lia | reflexivity].
    + apply Hv; [| lia]. rewrite forallb_forall in Hvals. exact (Hvals kv Hkv).
Qed.

(** X2. Sanitizing is idempotent: a value [_sanitize] has returned is
    returned unchanged by [_sanitize], as soon as the stack exceeds its
    nesting. *)
Theorem sanitize_idempotent (d : nat) (v w : pyval) :
  _sanitize d v = Ok w ->
  forall d', (height w < d')%nat -> _sanitize d' w = Ok w.
Proof.
  intros H d' Hd'. apply sanitized_fixed; [exact (sanitize_sanitized d v w H) | exact Hd'].
Qed.

Lemma sanitize_idempotent_witness :
  _sanitize 4 (PList [PNone; PStr "01"]) = Ok (PList [PNone; PStr "01"]).
Proof.
  apply (sanitize_idempotent 2 (PTuple [PFloat FNan; PBytes [x01]])
           (PList [PNone; PStr "01"]) eq_refl 4%nat).
  simpl. lia.
Defined.

(** ** When the serializer does not fall back *)







(** ** Paths and candidates *)

Lemma resolves_functional cur ks v1 v2 :
  resolves cur ks v1 -> resolves cur ks v2 -> v1 = v2.
Proof.
  intros H1 H2.
  rewrite <- (get_loop_resolves PNone H1). apply (get_loop_resolves PNone H2).
Qed.

Lemma split_cons sep s : exists k ks, split sep s = k :: ks.
Proof.
  induction s as [| c s [k [ks IH]]]; simpl.
  - eexists _, _. reflexivity.
  - destruct (Ascii.eqb c sep); [eexists _, _; reflexivity |].
    rewrite IH. eexists _, _. reflexivity.
Qed.

Lemma get_unresolved (pkt : pyval) path :
  (forall u, resolves pkt (split "." path) u -> isinstance_int u = false) ->
  isinstance_int (_get pkt path PNone) = false.
Proof.
  intros H. unfold _get.
  destruct (get_loop_inv pkt (split "." path) PNone) as [Hres | Hd].
  - exact (H _ Hres).
  - rewrite Hd. reflexivity.
Qed.

Lemma extract_loop_skip pkt pre rest :
  (forall p, In p pre -> isinstance_int (_get pkt p PNone) = false) ->
  _extract_channel_loop pkt (pre ++ rest) = _extract_channel_loop pkt rest.
Proof.
  induction pre as [| p pre IH]; intros H; [reflexivity |].
  simpl. rewrite (H p (or_introl eq_refl)).
  apply IH. intros q Hq. apply H. right. exact Hq.
Qed.

Lemma extract_loop_found pkt paths :
  _extract_channel_loop pkt paths = PNone
  \/ exists path,
       In path paths
       /\ resolves pkt (split "." path) (_extract_channel_loop pkt paths)
       /\ isinstance_int (_extract_channel_loop pkt paths) = true.
Proof.
  induction paths as [| p paths IH]; [left; reflexivity |].
  simpl. destruct (isinstance_int (_get pkt p PNone)) eqn:E.
  - right. exists p. split; [left; reflexivity |]. split; [| exact E].
    unfold _get in *.
    destruct (get_loop_inv pkt (split "." p) PNone) as [Hres | Hd]; [exact Hres |].
    rewrite Hd in E. discriminate E.
  - destruct IH as [IH | (path & Hin & Hres & Hint)]; [left; exact IH |].
    right. exists path. split; [right; exact Hin |]. split; assumption.
Qed.

(** X4. The six candidate paths are tried in their listed order: the
    channel is the integer found at the first path that resolves to an
    integer, whatever the later paths hold. *)
Theorem extract_channel_first_int (pkt : pydict) (pre post : list string)
    (path : string) (v : pyval) :
  candidates = (pre ++ path :: post)%list ->
  (forall p u, In p pre -> resolves (PDict pkt) (split "." p) u ->
               isinstance_int u = false) ->
  resolves (PDict pkt) (split "." path) v ->
  isinstance_int v = true ->
  _extract_channel pkt = v.
Proof.
  intros Hc Hpre Hres Hint. unfold _extract_channel. rewrite Hc.
  rewrite extract_loop_skip.
  - simpl. unfold _get. rewrite (get_loop_resolves PNone Hres), Hint. reflexivity.
  - intros p Hp. apply get_unresolved. intros u. exact (Hpre p u Hp).
Qed.

Lemma extract_channel_first_int_witness : _extract_channel ev_snake = PInt 4.
Proof.
  apply (extract_channel_first_int ev_snake
           ["decoded.header.channelIndex"; "decoded.header.channel_index";
            "rxMetadata.channel"]
           ["decoded.channel"; "decoded.channel_index"]
           "rx_metadata.channel" (PInt 4)).
  - reflexivity.
  - intros p u Hin Hres. rewrite <- (get_loop_resolves PNone Hres).
    simpl in Hin. intuition (subst; reflexivity).
  - eapply resolves_step; [reflexivity |].
    eapply resolves_step; [reflexivity |].
    apply resolves_here.
  - reflexivity.
Defined.

(** X5. [_extract_channel] never makes a channel up: what it returns is
    [None] or an integer that one of the six candidate paths resolves
    to in the event. *)
Theorem extract_channel_sound (pkt : pydict) :
  _extract_channel pkt = PNone
  \/ exists path,
       In path candidates
       /\ resolves (PDict pkt) (split "." path) (_extract_channel pkt)
       /\ isinstance_int (_extract_channel pkt) = true.
Proof. apply extract_loop_found. Qed.

(** X6. [_get] returns the value the dotted path resolves to and the
    default in every other case: when the path does not resolve, and in
    particular whenever the root is not a mapping, the path having at
    least one segment. *)
Theorem get_contract (d : pyval) (path : string) (default : pyval) :
  (forall v, resolves d (split "." path) v -> _get d path default = v)
  /\ ((forall v, ~ resolves d (split "." path) v) -> _get d path default = default)
  /\ ((forall kvs, d <> PDict kvs) -> _get d path default = default).
Proof.
  split; [| split].
  - intros v H. exact (get_loop_resolves default H).
  - intros H. unfold _get.
    destruct (get_loop_inv d (split "." path) default) as [Hres | Hd]; [| exact Hd].
    destruct (H _ Hres).
  - intros H. unfold _get. destruct (split_cons "." path) as (k & ks & ->).
    destruct d; try reflexivity. destruct (H kvs eq_refl).
Qed.

Lemma get_contract_witness :
  _get (PDict ev_snake) "rx_metadata.channel" (PStr "none") = PInt 4
  /\ _get (PDict ev_snake) "rx_metadata.channel.x" (PStr "none") = PStr "none"
  /\ _get (PInt 7) "" (PStr "none") = PStr "none".
Proof.
  split; [| split].
  - apply (proj1 (get_contract (PDict ev_snake) "rx_metadata.channel" (PStr "none"))).
    eapply resolves_step; [reflexivity |].
    eapply resolves_step; [reflexivity |].
    apply resolves_here.
  - apply (proj1 (proj2 (get_contract (PDict ev_snake) "rx_metadata.channel.x"
                           (PStr "none")))).
    intros v H. pose proof (get_loop_resolves (PStr "a") H) as Ha.
    pose proof (get_loop_resolves (PStr "b") H) as Hb.
    simpl in Ha, Hb. congruence.
  - apply (proj2 (proj2 (get_contract (PInt 7) "" (PStr "none")))).
    intros kvs H. discriminate H.
Defined.

(** ** What one callback does to the state *)

(** The statistics after one event of channel [ch]. *)
Lemma callback_run depth down packet w :
  let ch := _extract_channel packet in
  let obj := PDict [(PStr "type", PStr "packet"); (PStr "packet", PDict (tag_channel packet))] in
  exists line,
    _safe_json_dumps depth obj = Ok line
    /\ _pubsub_callback depth down packet w =
       (Ok (tag_channel packet),
        after_broadcast down obj line
          (set_stats (_total_packets w + 1)
             (if isinstance_int ch
              then by_channel_set ch (by_channel_get ch (_by_channel w) 0 + 1)
                     (_by_channel w)
              else _by_channel w) w)).
Proof.
  intros ch obj.
  pose proof (inc_stats_run (tag_channel packet) w
                (or_intror (ex_intro _ _ (tag_channel_meta packet)))) as Hinc.
  rewrite counted_channel_tag in Hinc. fold ch in Hinc.
  set (w1 := set_stats _ _ w) in *.
  destruct (broadcast_run depth down obj w1) as (line & Hline & Hb).
  exists line. split; [exact Hline |].
  unfold _pubsub_callback, try_M, bindM, ret. fold obj. rewrite Hinc, Hb. reflexivity.
Qed.

Lemma old_meta_tag packet :
  old_meta (tag_channel packet) =
  dict_set "channelIndex" (_extract_channel packet) (old_meta packet).
Proof. unfold old_meta at 1. rewrite tag_channel_meta. reflexivity. Qed.

Lemma tag_channel_twice packet : tag_channel (tag_channel packet) = tag_channel packet.
Proof.
  rewrite (tag_channel_eq (tag_channel packet)).
  rewrite extract_channel_tag, old_meta_tag, dict_set_set.
  rewrite (tag_channel_eq packet) at 1. rewrite dict_set_set.
  symmetry. apply tag_channel_eq.
Qed.

(** X7. Tagging is idempotent: an event the callback has tagged comes
    out of a second call as it went in, with the same tag; only the
    counters move, once for each call. *)
Theorem callback_retags_same (depth : nat) (down : sock -> bool) (packet : pydict)
    (w : world) :
  exists w1 w2,
    _pubsub_callback depth down packet w = (Ok (tag_channel packet), w1)
    /\ _pubsub_callback depth down (tag_channel packet) w1 = (Ok (tag_channel packet), w2)
    /\ _extract_channel (tag_channel packet) = _extract_channel packet
    /\ _total_packets w2 = _total_packets w + 2.
Proof.
  destruct (callback_run depth down packet w) as (l1 & _ & H1).
  cbv zeta in H1.
  set (w1 := after_broadcast _ _ _ _) in H1.
  destruct (callback_run depth down (tag_channel packet) w1) as (l2 & _ & H2).
  cbv zeta in H2. rewrite tag_channel_twice in H2.
  eexists _, _. split; [exact H1 |]. split; [exact H2 |].
  split; [apply extract_channel_tag |].
  simpl. lia.
Qed.

(** ** Counting over a run *)

Lemma sum_counts_set ch m :
  sum_counts (by_channel_set ch (by_channel_get ch m 0 + 1) m) = sum_counts m + 1.
Proof.
  induction m as [| [k n] m IH]; simpl; [lia |].
  destruct (chan_eqb ch k); simpl; lia.
Qed.

Lemma existsb_set_other k ch n m :
  chan_eqb k ch = false ->
  existsb (fun kn => chan_eqb k (fst kn)) (by_channel_set ch n m) =
  existsb (fun kn => chan_eqb k (fst kn)) m.
Proof.
  intros Hk. induction m as [| [k' n'] m IH]; simpl.
  - rewrite Hk. reflexivity.
  - destruct (chan_eqb ch k') eqn:E; simpl; [reflexivity |].
    rewrite IH. reflexivity.
Qed.

Lemma chan_eqb_refl ch : isinstance_int ch = true -> chan_eqb ch ch = true.
Proof.
  unfold chan_eqb. destruct ch; try discriminate; intros _; simpl; apply Z.eqb_refl.
Qed.

Lemma by_channel_get_nonneg ch m :
  well_keyed m = true -> 0 <= by_channel_get ch m 0.
Proof.
  induction m as [| [k n] m IH]; simpl; intros H; [lia |].
  apply andb_prop in H. destruct H as [H Hm].
  apply andb_prop in H. destruct H as [H _].
  apply andb_prop in H. destruct H as [_ Hn].
  destruct (chan_eqb ch k); [lia | exact (IH Hm)].
Qed.

Lemma well_keyed_set ch m :
  isinstance_int ch = true ->
  well_keyed m = true ->
  well_keyed (by_channel_set ch (by_channel_get ch m 0 + 1) m) = true.
Proof.
  intros Hch. induction m as [| [k n] m IH]; simpl; intros H.
  - rewrite Hch. reflexivity.
  - pose proof H as H0.
    apply andb_prop in H. destruct H as [H Hm].
    apply andb_prop in H. destruct H as [H Hex].
    apply andb_prop in H. destruct H as [Hk Hn].
    destruct (chan_eqb ch k) eqn:E; simpl.
    + apply Z.ltb_lt in Hn.
      repeat (apply andb_true_intro; split); try assumption.
      apply Z.ltb_lt. lia.
    + repeat (apply andb_true_intro; split); try assumption; [| exact (IH Hm)].
      rewrite existsb_set_other; [exact Hex |].
      rewrite chan_eqb_sym. exact E.
Qed.

Lemma receive_all_run depth down packets :
  forall w, exists w',
    receive_all depth down packets w = (Ok tt, w')
    /\ _total_packets w' = _total_packets w + Z.of_nat (List.length packets)
    /\ (forall c, by_channel_get c (_by_channel w') 0 =
                  by_channel_get c (_by_channel w) 0 + on_channel c packets)
    /\ sum_counts (_by_channel w') = sum_counts (_by_channel w) + with_channel packets
    /\ (well_keyed (_by_channel w) = true -> well_keyed (_by_channel w') = true)
    /\ _interface w' = _interface w.
Proof.
  induction packets as [| p rest IH]; intros w.
  - exists w. cbn [receive_all on_channel with_channel List.length]. unfold ret.
    split; [reflexivity |]. split; [simpl; lia |].
    split; [intros c; lia |]. split; [lia |].
    split; [intros H; exact H | reflexivity].
  - destruct (callback_run depth down p w) as (line & _ & Hc). cbv zeta in Hc.
    set (w1 := after_broadcast _ _ _ _) in Hc.
    destruct (IH w1) as (w' & Hr & Ht & Hg & Hs & Hk & Hi).
    exists w'. cbn [receive_all]. unfold bindM. rewrite Hc.
    split; [exact Hr |].
    split; [rewrite Ht; subst w1; cbn [List.length]; simpl _total_packets; lia |].
    split; [| split; [| split]].
    + intros c. rewrite Hg. subst w1. simpl _by_channel. cbn [on_channel].
      destruct (isinstance_int (_extract_channel p)) eqn:E.
      * rewrite by_channel_get_set.
        destruct (chan_eqb c (_extract_channel p)) eqn:Ec; [| lia].
        assert (by_channel_get (_extract_channel p) (_by_channel w) 0 =
                by_channel_get c (_by_channel w) 0) as ->; [| lia].
        clear - Ec. induction (_by_channel w) as [| [k n] m IHm]; simpl; [reflexivity |].
        destruct (chan_eqb c k) eqn:Ek.
        -- rewrite chan_eqb_sym in Ec.
           rewrite (chan_eqb_trans _ _ _ Ec Ek). reflexivity.
        -- destruct (chan_eqb (_extract_channel p) k) eqn:Ep; [| exact IHm].
           rewrite (chan_eqb_trans _ _ _ Ec Ep) in Ek. discriminate Ek.
      * assert (chan_eqb c (_extract_channel p) = false) as ->; [| lia].
        unfold chan_eqb. destruct (_extract_channel p); try discriminate E;
          destruct (int_value c); reflexivity.
    + rewrite Hs. subst w1. simpl _by_channel. cbn [with_channel].
      destruct (isinstance_int (_extract_channel p)); [rewrite sum_counts_set |]; lia.
    + intros H. apply Hk. subst w1. simpl _by_channel.
      destruct (isinstance_int (_extract_channel p)) eqn:E; [| exact H].
      apply well_keyed_set; assumption.
    + rewrite Hi. reflexivity.
Qed.

Lemma with_channel_bounds packets :
  0 <= with_channel packets <= Z.of_nat (List.length packets).
Proof.
  induction packets as [| p rest IH]; simpl with_channel; cbn [List.length]; [lia |].
  destruct (isinstance_int (_extract_channel p)); lia.
Qed.

(** X8. Over any run of received events the callback never raises, the
    total grows by the number of events, and the counter of every
    channel grows by the number of events whose extracted channel is
    that channel. *)
Theorem receive_all_counts (depth : nat) (down : sock -> bool)
    (packets : list pydict) (w : world) :
  exists w',
    receive_all depth down packets w = (Ok tt, w')
    /\ _total_packets w' = _total_packets w + Z.of_nat (List.length packets)
    /\ forall c, by_channel_get c (_by_channel w') 0 =
                 by_channel_get c (_by_channel w) 0 + on_channel c packets.
Proof.
  destruct (receive_all_run depth down packets w) as (w' & Hr & Ht & Hg & _).
  exists w'. split; [exact Hr |]. split; [exact Ht | exact Hg].
Qed.

(** X9. The table of counters stays well formed over any run: its keys
    are integers, no two of them equal, its counts are positive, and
    the counts never add up to more than the total. *)
Theorem stats_invariant (depth : nat) (down : sock -> bool)
    (packets : list pydict) (w : world) :
  well_keyed (_by_channel w) = true ->
  sum_counts (_by_channel w) <= _total_packets w ->
  exists w',
    receive_all depth down packets w = (Ok tt, w')
    /\ well_keyed (_by_channel w') = true
    /\ sum_counts (_by_channel w') <= _total_packets w'.
Proof.
  intros Hk Hs.
  destruct (receive_all_run depth down packets w) as (w' & Hr & Ht & _ & Hsum & Hwk & _).
  exists w'. split; [exact Hr |]. split; [exact (Hwk Hk) |].
  pose proof (with_channel_bounds packets). lia.
Qed.

Lemma stats_invariant_witness :
  exists w',
    receive_all 10 all_up [ev_conflict; ev_no_channel; ev_true; ev_snake] world0
    = (Ok tt, w')
    /\ well_keyed (_by_channel w') = true
    /\ sum_counts (_by_channel w') <= _total_packets w'.
Proof.
  apply (stats_invariant 10 all_up [ev_conflict; ev_no_channel; ev_true; ev_snake] world0).
  - reflexivity.
  - simpl. lia.
Defined.

(** ** The registry over a connection's life *)

Lemma filter_up_twice (down : sock -> bool) l :
  filter (fun s => negb (down s)) (filter (fun s => negb (down s)) l)
  = filter (fun s => negb (down s)) l.
Proof.
  induction l as [| a l IH]; simpl; [reflexivity |].
  destruct (down a) eqn:E; simpl; [exact IH |]. rewrite E. simpl. rewrite IH. reflexivity.
Qed.

Lemma filter_down_up (down : sock -> bool) l :
  filter down (filter (fun s => negb (down s)) l) = [].
Proof.
  induction l as [| a l IH]; simpl; [reflexivity |].
  destruct (down a) eqn:E; simpl; [exact IH |]. rewrite E. exact IH.
Qed.

Lemma map_send_up (down : sock -> bool) data l :
  map (fun s => SendAll s data (negb (down s))) (filter (fun s => negb (down s)) l)
  = map (fun s => SendAll s data true) (filter (fun s => negb (down s)) l).
Proof.
  induction l as [| a l IH]; simpl; [reflexivity |].
  destruct (down a) eqn:E; simpl; [exact IH |]. rewrite E, IH. reflexivity.
Qed.

(** X10. A broadcast leaves in the registry exactly the clients it could
    write to, in their order; a broadcast that follows writes to all of
    them, closes nothing and leaves the registry as it is. *)
Theorem broadcast_settles (depth : nat) (down : sock -> bool) (obj obj' : pyval)
    (clients : list sock) :
  exists c1 t1 line',
    _broadcast_json depth down obj clients = Ok (c1, t1)
    /\ c1 = filter (fun s => negb (down s)) clients
    /\ (forall s, In s c1 <-> In s clients /\ down s = false)
    /\ _safe_json_dumps depth obj' = Ok line'
    /\ _broadcast_json depth down obj' c1 =
       Ok (c1, Broadcast obj'
               :: map (fun s => SendAll s (encode_utf8 line' ++ ["010"%byte])%list true) c1).
Proof.
  destruct (safe_json_dumps_returns depth obj) as [line Hline].
  destruct (safe_json_dumps_returns depth obj') as [line' Hline'].
  pose proof (safe_json_dumps_no_newline depth obj' line' Hline') as Hnl.
  eexists _, _, line'.
  split; [exact (broadcast_json_run depth down obj clients line Hline) |].
  split; [reflexivity |].
  split.
  { intros s. rewrite filter_In. rewrite negb_true_iff. reflexivity. }
  split; [exact Hline' |].
  rewrite (broadcast_json_run depth down obj' _ line' Hline').
  rewrite filter_up_twice, filter_down_up, List.app_nil_r, map_send_up.
  rewrite (rstrip_absent newline line' Hnl).
  unfold encode_utf8. rewrite list_byte_of_string_app. reflexivity.
Qed.

Lemma list_remove_last s l : ~ In s l -> list_remove s (l ++ [s]) = Ok l.
Proof.
  intros H. rewrite (list_remove_middle s l [] H). rewrite List.app_nil_r. reflexivity.
Qed.

Lemma handle_enter_run depth down s w :
  exists line,
    _safe_json_dumps depth
      (PDict [(PStr "type", PStr "broker_info"); (PStr "msg", PStr "connected")]) = Ok line
    /\ handle_enter depth down s w =
       (Ok tt,
        log [SendAll s (encode_utf8 line ++ ["010"%byte])%list (negb (down s))]
          (set_clients (_clients w ++ [s])%list w)).
Proof.
  destruct (safe_json_dumps_returns depth
              (PDict [(PStr "type", PStr "broker_info"); (PStr "msg", PStr "connected")]))
    as [line Hline].
  pose proof (safe_json_dumps_no_newline depth _ line Hline) as Hnl.
  exists line. split; [exact Hline |].
  unfold handle_enter, bindM, update, lift. rewrite Hline.
  unfold _safe_send_line, sendall. rewrite (rstrip_absent newline line Hnl).
  unfold encode_utf8. rewrite list_byte_of_string_app.
  destruct (down s); reflexivity.
Qed.

(** X11. For a connection that is not yet registered, [handle] from
    entry to exit leaves the registry as it found it: the connection is
    appended, greeted with one line written to it alone, and at the end
    removed and closed, without an exception. *)
Theorem handle_round_trip (depth : nat) (down : sock -> bool) (s : sock) (w : world) :
  ~ In s (_clients w) ->
  exists line w1 w2,
    handle_enter depth down s w = (Ok tt, w1)
    /\ _clients w1 = (_clients w ++ [s])%list
    /\ handle_exit s w1 = (Ok tt, w2)
    /\ _clients w2 = _clients w
    /\ contains newline line = false
    /\ trace w2 =
       (trace w ++ [SendAll s (encode_utf8 line ++ ["010"%byte])%list (negb (down s));
                    Close s])%list.
Proof.
  intros Hs.
  destruct (handle_enter_run depth down s w) as (line & Hline & He).
  exists line. eexists _, _. split; [exact He |]. split; [reflexivity |].
  unfold handle_exit, bindM, update, unregister.
  cbn [_clients set_clients log]. rewrite (list_remove_last s (_clients w) Hs).
  split; [reflexivity |]. split; [reflexivity |].
  split; [exact (safe_json_dumps_no_newline depth _ line Hline) |].
  simpl. rewrite <- List.app_assoc. reflexivity.
Qed.

Lemma handle_round_trip_witness :
  exists line w1 w2,
    handle_enter 10 all_up 2%nat world1 = (Ok tt, w1)
    /\ _clients w1 = (_clients world1 ++ [2%nat])%list
    /\ handle_exit 2%nat w1 = (Ok tt, w2)
    /\ _clients w2 = _clients world1
    /\ contains newline line = false
    /\ trace w2 =
       (trace world1
        ++ [SendAll 2%nat (encode_utf8 line ++ ["010"%byte])%list (negb (all_up 2%nat));
            Close 2%nat])%list.
Proof.
  apply (handle_round_trip 10 all_up 2%nat world1).
  simpl. intros [H | []]. discriminate H.
Defined.

(** X12. With room on the stack for a flat mapping, the line a new
    client is greeted with is the [broker_info] object, compact, and it
    is written to that client whether or not others are registered. *)
Theorem greeting_line (depth : nat) (down : sock -> bool) (s : sock) (w : world) :
  (2 <= depth)%nat ->
  exists w1,
    handle_enter depth down s w = (Ok tt, w1)
    /\ trace w1 =
       (trace w
        ++ [SendAll s
              (encode_utf8
                 ("{" ++ json_string "type" ++ ":" ++ json_string "broker_info" ++ ","
                  ++ json_string "msg" ++ ":" ++ json_string "connected" ++ "}")
               ++ ["010"%byte])%list
              (negb (down s))])%list.
Proof.
  intros Hd.
  destruct (handle_enter_run depth down s w) as (line & Hline & He).
  eexists. split; [exact He |].
  destruct depth as [| [| d]]; try lia.
  vm_compute in Hline. injection Hline as <-. reflexivity.
Qed.

Lemma greeting_line_witness :
  exists w1,
    handle_enter 2 all_up 2%nat world1 = (Ok tt, w1)
    /\ trace w1 =
       (trace world1
        ++ [SendAll 2%nat
              (encode_utf8
                 ("{" ++ json_string "type" ++ ":" ++ json_string "broker_info" ++ ","
                  ++ json_string "msg" ++ ":" ++ json_string "connected" ++ "}")
               ++ ["010"%byte])%list
              (negb (all_up 2%nat))])%list.
Proof. apply (greeting_line 2 all_up 2%nat world1). lia. Defined.

Lemma closes_app t1 t2 : closes (t1 ++ t2) = (closes t1 ++ closes t2)%list.
Proof.
  induction t1 as [| a t1 IH]; simpl; [reflexivity |].
  destruct a; simpl; rewrite IH; reflexivity.
Qed.

Lemma closes_deliveries down line clients :
  closes (deliveries down line clients) = filter down clients.
Proof.
  unfold deliveries. rewrite closes_app.
  assert (closes (map (fun s => SendAll s (encode_utf8 (rstrip newline line ++ str1 newline))
                                  (negb (down s))) clients) = []) as ->.
  { induction clients as [| a l IH]; simpl; [reflexivity | exact IH]. }
  simpl. induction (filter down clients) as [| a l IH]; simpl; [reflexivity |].
  rewrite IH. reflexivity.
Qed.

(** X13. A client whose write fails during a broadcast is removed and
    closed by the broadcast; when its handler then reaches its exit, the
    removal finds nothing, the [ValueError] is swallowed, and the socket
    is closed once more. *)
Theorem handle_exit_after_drop (depth : nat) (down : sock -> bool) (obj : pyval)
    (s : sock) (w : world) :
  In s (_clients w) ->
  down s = true ->
  exists w1 w2 t,
    broadcast depth down obj w = (Ok tt, w1)
    /\ ~ In s (_clients w1)
    /\ trace w1 = (trace w ++ t)%list
    /\ In s (closes t)
    /\ handle_exit s w1 = (Ok tt, w2)
    /\ _clients w2 = _clients w1
    /\ trace w2 = (trace w1 ++ [Close s])%list.
Proof.
  intros Hin Hdown.
  destruct (broadcast_run depth down obj w) as (line & _ & Hb).
  assert (Hout : ~ In s (filter (fun s => negb (down s)) (_clients w))).
  { rewrite filter_In, Hdown. intros [_ H]. discriminate H. }
  eexists _, _, _. split; [exact Hb |].
  split; [exact Hout |]. split; [reflexivity |].
  split.
  { cbn [closes]. rewrite closes_deliveries, filter_In. split; assumption. }
  unfold handle_exit, bindM, update, unregister.
  cbn [_clients after_broadcast set_clients log].
  rewrite (list_remove_absent s _ Hout). cbn [e_class is_ValueError].
  split; [reflexivity |]. split; reflexivity.
Qed.

Lemma handle_exit_after_drop_witness :
  exists w1 w2 t,
    broadcast 10 (Nat.eqb 1) PNone world1 = (Ok tt, w1)
    /\ ~ In 1%nat (_clients w1)
    /\ trace w1 = (trace world1 ++ t)%list
    /\ In 1%nat (closes t)
    /\ handle_exit 1%nat w1 = (Ok tt, w2)
    /\ _clients w2 = _clients w1
    /\ trace w2 = (trace w1 ++ [Close 1%nat])%list.
Proof.
  apply (handle_exit_after_drop 10 (Nat.eqb 1) PNone 1%nat world1).
  - simpl. left. reflexivity.
  - reflexivity.
Defined.

(** ** The line terminator *)

Lemma rstrip_split c s :
  exists n, s = rstrip c s ++ replicate c n /\ ends_with c (rstrip c s) = false.
Proof.
  induction s as [| a s (n & Hs & He)]; simpl.
  - exists O. split; reflexivity.
  - destruct (rstrip c s) as [| b r] eqn:E.
    + destruct (Ascii.eqb a c) eqn:Ea.
      * apply Ascii.eqb_eq in Ea. subst a. exists (S n). simpl in *.
        rewrite <- Hs. split; reflexivity.
      * exists n. simpl in *. rewrite <- Hs. split; [reflexivity | exact Ea].
    + exists n. split; [| exact He].
      change (String a s = String a (String b r ++ replicate c n)).
      rewrite <- Hs. reflexivity.
Qed.

Lemma rstrip_replicate c n s :
  ends_with c s = false -> rstrip c (s ++ replicate c n) = s.
Proof.
  induction s as [| a s IH]; intros He.
  - simpl. induction n as [| n IHn]; simpl; [reflexivity |].
    rewrite IHn, Ascii.eqb_refl. reflexivity.
  - simpl. destruct s as [| b s'].
    + simpl in He. rewrite (IH eq_refl). rewrite He. reflexivity.
    + rewrite (IH He). reflexivity.
Qed.

(** X14. [_safe_send_line] writes the line without the newlines it ends
    with, followed by one newline: a line and the same line with more
    newlines after it give the same bytes, and the answer is whether
    the write went through. *)
Theorem send_line_one_newline (down : sock -> bool) (s : sock) (line : string) :
  exists body n,
    line = body ++ replicate newline n
    /\ ends_with newline body = false
    /\ _safe_send_line down s line =
       (negb (down s),
        [SendAll s (encode_utf8 body ++ ["010"%byte])%list (negb (down s))])
    /\ forall m, _safe_send_line down s (body ++ replicate newline m)
                 = _safe_send_line down s line.
Proof.
  destruct (rstrip_split newline line) as (n & Hn & He).
  exists (rstrip newline line), n. split; [exact Hn |]. split; [exact He |].
  split.
  - unfold _safe_send_line, sendall, encode_utf8. rewrite list_byte_of_string_app.
    destruct (down s); reflexivity.
  - intros m. unfold _safe_send_line.
    rewrite (rstrip_replicate newline m _ He). reflexivity.
Qed.

(** ** The upstream connection over the turns of the loop *)

Lemma connects_app t1 t2 : connects (t1 ++ t2) = (connects t1 ++ connects t2)%list.
Proof.
  induction t1 as [| a t1 IH]; simpl; [reflexivity |].
  destruct a; simpl; rewrite IH; reflexivity.
Qed.

Lemma subscribes_app t1 t2 : subscribes (t1 ++ t2) = (subscribes t1 + subscribes t2)%nat.
Proof.
  induction t1 as [| a t1 IH]; simpl; [reflexivity |].
  destruct a; simpl; rewrite IH; reflexivity.
Qed.

Lemma connects_deliveries down line clients : connects (deliveries down line clients) = [].
Proof.
  unfold deliveries. rewrite connects_app.
  assert (forall l, connects (map Close l) = []) as ->
      by (intros l; induction l; simpl; auto).
  rewrite List.app_nil_r. induction clients; simpl; auto.
Qed.

Lemma subscribes_deliveries down line clients :
  subscribes (deliveries down line clients) = O.
Proof.
  unfold deliveries. rewrite subscribes_app.
  assert (forall l, subscribes (map Close l) = O) as ->
      by (intros l; induction l; simpl; auto).
  rewrite Nat.add_0_r. induction clients; simpl; auto.
Qed.

Lemma quiet_refl w : quiet w w [].
Proof.
  unfold quiet. rewrite List.app_nil_r. repeat split; constructor.
Qed.

Lemma quiet_trans w1 w2 w3 t1 t2 :
  quiet w1 w2 t1 -> quiet w2 w3 t2 -> quiet w1 w3 (t1 ++ t2).
Proof.
  intros (T1 & I1 & C1 & S1 & B1) (T2 & I2 & C2 & S2 & B2).
  unfold quiet. rewrite T2, T1, I2, I1, connects_app, subscribes_app, broadcasts_app,
    C1, C2, S1, S2, List.app_assoc.
  repeat split. apply Forall_app. split; assumption.
Qed.

Lemma quiet_broadcast down obj line w :
  is_beat obj ->
  quiet w (after_broadcast down obj line w) (Broadcast obj :: deliveries down line (_clients w)).
Proof.
  intros Hb. unfold quiet. cbn [connects subscribes broadcasts].
  rewrite connects_deliveries, subscribes_deliveries, broadcasts_deliveries.
  repeat split. constructor; [exact Hb | constructor].
Qed.

Lemma heartbeat_quiet depth down host tk w :
  exists w1 t,
    heartbeat_block depth down host tk w = (Ok tt, w1)
    /\ quiet w w1 t /\ sleeps t = [].
Proof.
  unfold heartbeat_block. destruct (Qle_bool 5 (now tk - last_hb w)).
  - unfold bindM, update.
    destruct (broadcast_run depth down
                (status "heartbeat" [(PStr "host", PStr host); (PStr "stats", _get_stats w)]) w)
      as (line & _ & ->).
    eexists _, _. split; [reflexivity |]. split.
    + apply (quiet_broadcast down _ line w). left. reflexivity.
    + cbn [sleeps]. apply sleeps_deliveries.
  - exists w, []. split; [reflexivity |]. split; [apply quiet_refl | reflexivity].
Qed.

Lemma priming_quiet depth down host t0 w :
  exists w1 t,
    _priming_tick depth down host t0 w = (Ok tt, w1)
    /\ quiet w w1 t /\ sleeps t = [].
Proof.
  unfold _priming_tick. destruct (Qle_bool 60 (t0 - _last_priming w)); cbn [negb].
  - unfold bindM, update.
    destruct (broadcast_run depth down
                (status "priming"
                   [(PStr "host", PStr host); (PStr "stats", _get_stats (set_last_priming t0 w))])
                (set_last_priming t0 w))
      as (line & _ & ->).
    eexists _, _. split; [reflexivity |]. split.
    + apply (quiet_broadcast down _ line (set_last_priming t0 w)). right. reflexivity.
    + cbn [sleeps]. apply sleeps_deliveries.
  - exists w, []. split; [reflexivity |]. split; [apply quiet_refl | reflexivity].
Qed.

Lemma quiet_sleep w q : quiet w (log [Sleep q] w) [Sleep q].
Proof. unfold quiet. repeat split. constructor. Qed.

(** With the interface open, a turn runs to its half-second sleep. *)
Lemma connected_turn depth down host tk w :
  _interface w <> None ->
  exists w1 t,
    loop_turn depth down host tk w = (Ok tt, w1)
    /\ quiet w w1 t /\ sleeps t = [(1 # 2)%Q].
Proof.
  intros Hi. unfold loop_turn, try_M, loop_try, bindM, connect_block.
  destruct (_interface w) as [h |] eqn:E; [| destruct (Hi eq_refl)].
  destruct (heartbeat_quiet depth down host tk w) as (w1 & t1 & -> & Q1 & S1).
  destruct (priming_quiet depth down host (now_priming tk) w1) as (w2 & t2 & -> & Q2 & S2).
  eexists _, _. split; [reflexivity |]. split.
  - exact (quiet_trans _ _ _ _ _ (quiet_trans _ _ _ _ _ Q1 Q2) (quiet_sleep w2 (1 # 2)%Q)).
  - rewrite !sleeps_app, S1, S2. reflexivity.
Qed.

Lemma connected_loop depth down host ticks :
  forall w,
    _interface w <> None ->
    exists w1 t,
      _connect_interface_loop depth down host ticks w = (Ok tt, w1)
      /\ quiet w w1 t /\ sleeps t = repeat (1 # 2)%Q (List.length ticks).
Proof.
  induction ticks as [| tk ticks IH]; intros w Hi.
  - exists w, []. split; [reflexivity |]. split; [apply quiet_refl | reflexivity].
  - cbn [_connect_interface_loop]. unfold bindM.
    destruct (connected_turn depth down host tk w Hi) as (w1 & t1 & -> & Q1 & S1).
    assert (Hi1 : _interface w1 <> None).
    { destruct Q1 as (_ & -> & _). exact Hi. }
    destruct (IH w1 Hi1) as (w2 & t2 & -> & Q2 & S2).
    eexists _, _. split; [reflexivity |]. split.
    + exact (quiet_trans _ _ _ _ _ Q1 Q2).
    + rewrite sleeps_app, S1, S2. reflexivity.
Qed.

(** X15. Once the interface is open the loop never opens it again and
    never subscribes again: whatever the upstream would answer, every
    turn runs to its half-second sleep, and what is broadcast are
    heartbeats and primings only. *)
Theorem connected_stays_connected (depth : nat) (down : sock -> bool) (host h : string)
    (ticks : list tick) (w : world) :
  _interface w = Some h ->
  exists w1 t,
    _connect_interface_loop depth down host ticks w = (Ok tt, w1)
    /\ trace w1 = (trace w ++ t)%list
    /\ _interface w1 = Some h
    /\ connects t = []
    /\ subscribes t = O
    /\ sleeps t = repeat (1 # 2)%Q (List.length ticks)
    /\ Forall is_beat (broadcasts t).
Proof.
  intros Hi.
  assert (Hn : _interface w <> None) by (rewrite Hi; discriminate).
  destruct (connected_loop depth down host ticks w Hn) as (w1 & t & Hr & (T & I & C & S & B) & Sl).
  exists w1, t. rewrite I, Hi. repeat split; assumption.
Qed.

Lemma connected_stays_connected_witness :
  exists w1 t,
    _connect_interface_loop 10 all_up "node" [tick_refused; tick_refused]
      (set_interface (Some "node") world1) = (Ok tt, w1)
    /\ trace w1 = (trace (set_interface (Some "node") world1) ++ t)%list
    /\ _interface w1 = Some "node"
    /\ connects t = []
    /\ subscribes t = O
    /\ sleeps t = repeat (1 # 2)%Q (List.length [tick_refused; tick_refused])
    /\ Forall is_beat (broadcasts t).
Proof.
  apply (connected_stays_connected 10 all_up "node" "node" [tick_refused; tick_refused]
           (set_interface (Some "node") world1)).
  reflexivity.
Defined.

(** A turn in which opening the interface raises. *)
Lemma refused_turn depth down host tk e w :
  _interface w = None ->
  connect tk = Raise e ->
  exists line,
    _safe_json_dumps depth (status (error_msg e) []) = Ok line
    /\ loop_turn depth down host tk w =
       (Ok tt,
        log [Sleep 3%Q]
          (after_broadcast down (status (error_msg e) []) line (log [Connect host] w))).
Proof.
  intros Hi Hc. apply loop_turn_handles.
  unfold loop_try, bindM, connect_block. rewrite Hi.
  unfold bindM, update, lift. rewrite Hc. reflexivity.
Qed.

(** X16. While the upstream refuses the connection the loop tries again
    at every turn: each turn opens the interface once, broadcasts the
    error status of the exception and sleeps three seconds; the
    interface stays unset, nothing is subscribed, and no heartbeat or
    priming goes out. *)
Theorem refused_upstream_retried (depth : nat) (down : sock -> bool) (host : string)
    (ticks : list tick) (es : list exc) (w : world) :
  _interface w = None ->
  map connect ticks = map (fun e => Raise e) es ->
  exists w1 t,
    _connect_interface_loop depth down host ticks w = (Ok tt, w1)
    /\ trace w1 = (trace w ++ t)%list
    /\ _interface w1 = None
    /\ connects t = repeat host (List.length ticks)
    /\ subscribes t = O
    /\ sleeps t = repeat 3%Q (List.length ticks)
    /\ broadcasts t = map (fun e => status (error_msg e) []) es
    /\ last_hb w1 = last_hb w
    /\ _last_priming w1 = _last_priming w.
Proof.
  revert es w. induction ticks as [| tk ticks IH]; intros es w Hi Hm.
  - destruct es; [| discriminate Hm].
    exists w, []. rewrite List.app_nil_r. repeat split; try reflexivity. exact Hi.
  - destruct es as [| e es]; [discriminate Hm |].
    cbn [map] in Hm. injection Hm as Hc Hm.
    destruct (refused_turn depth down host tk e w Hi Hc) as (line & _ & Ht).
    cbn [_connect_interface_loop]. unfold bindM. rewrite Ht.
    set (w1 := log [Sleep 3%Q] _).
    destruct (IH es w1 Hi Hm) as (w2 & t2 & -> & T & I & C & S & Sl & B & Hb & Lp).
    exists w2,
      ([Connect host]
       ++ (Broadcast (status (error_msg e) []) :: deliveries down line (_clients w))
       ++ [Sleep 3%Q] ++ t2)%list.
    split; [reflexivity |].
    split.
    { rewrite T. subst w1. cbn [trace log after_broadcast set_clients _clients].
      rewrite <- !List.app_assoc. reflexivity. }
    split; [exact I |].
    rewrite !connects_app, !subscribes_app, !sleeps_app, !broadcasts_app.
    cbn [connects subscribes sleeps broadcasts].
    rewrite connects_deliveries, subscribes_deliveries, sleeps_deliveries,
      broadcasts_deliveries, C, S, Sl, B.
    repeat split; assumption.
Qed.

Lemma refused_upstream_retried_witness :
  exists w1 t,
    _connect_interface_loop 10 all_up "node" [tick_refused; tick_refused] world1
    = (Ok tt, w1)
    /\ trace w1 = (trace world1 ++ t)%list
    /\ _interface w1 = None
    /\ connects t = repeat "node" (List.length [tick_refused; tick_refused])
    /\ subscribes t = O
    /\ sleeps t = repeat 3%Q (List.length [tick_refused; tick_refused])
    /\ broadcasts t =
       map (fun e => status (error_msg e) [])
         [Exc MeshInterfaceError "boom"; Exc MeshInterfaceError "boom"]
    /\ last_hb w1 = last_hb world1
    /\ _last_priming w1 = _last_priming world1.
Proof.
  apply (refused_upstream_retried 10 all_up "node" [tick_refused; tick_refused]
           [Exc MeshInterfaceError "boom"; Exc MeshInterfaceError "boom"] world1);
    reflexivity.
Defined.

Lemma error_msg_not_connected e : error_msg e <> "connected".
Proof.
  unfold error_msg. destruct (is_MeshInterfaceError (e_class e)); simpl; discriminate.
Qed.

Lemma beat_not_connected obj : is_beat obj -> field "msg" obj <> Some (PStr "connected").
Proof. intros [H | H]; rewrite H; discriminate. Qed.

(** X17. When the interface opens and [pub.subscribe] raises, the
    interface stays set: the turn broadcasts the error status, and no
    later turn opens the interface or subscribes again, so the callback
    is never registered and no [connected] status is ever broadcast. *)
Theorem subscribe_failure_not_retried (depth : nat) (down : sock -> bool)
    (host : string) (tk : tick) (rest : list tick) (e : exc) (w : world) :
  _interface w = None ->
  connect tk = Ok tt ->
  subscribe tk = Raise e ->
  exists w1 t,
    _connect_interface_loop depth down host (tk :: rest) w = (Ok tt, w1)
    /\ trace w1 = (trace w ++ t)%list
    /\ _interface w1 = Some host
    /\ connects t = [host]
    /\ subscribes t = 1%nat
    /\ sleeps t = 3%Q :: repeat (1 # 2)%Q (List.length rest)
    /\ (exists later, broadcasts t = status (error_msg e) [] :: later)
    /\ forall obj, In obj (broadcasts t) -> field "msg" obj <> Some (PStr "connected").
Proof.
  intros Hi Hc Hs.
  assert (Htry : loop_try depth down host tk w =
                 (Raise e, log [Subscribe] (set_interface (Some host) (log [Connect host] w)))).
  { unfold loop_try, bindM, connect_block. rewrite Hi.
    unfold bindM, update, lift. rewrite Hc, Hs. reflexivity. }
  destruct (loop_turn_handles depth down host tk w e _ Htry) as (line & _ & Ht).
  cbn [_connect_interface_loop]. unfold bindM. rewrite Ht.
  set (w0 := log [Subscribe] (set_interface (Some host) (log [Connect host] w))).
  set (w1 := log [Sleep 3%Q] _).
  assert (Hn : _interface w1 <> None) by (simpl; discriminate).
  destruct (connected_loop depth down host rest w1 Hn)
    as (w2 & t2 & -> & (T & I & C & S & B) & Sl).
  exists w2,
    ([Connect host; Subscribe]
     ++ (Broadcast (status (error_msg e) []) :: deliveries down line (_clients w0))
     ++ [Sleep 3%Q] ++ t2)%list.
  split; [reflexivity |].
  split.
  { rewrite T. subst w1 w0. cbn [trace log after_broadcast set_clients set_interface _clients].
    rewrite <- !List.app_assoc. reflexivity. }
  split; [rewrite I; reflexivity |].
  rewrite !connects_app, !subscribes_app, !sleeps_app, !broadcasts_app.
  cbn [connects subscribes sleeps broadcasts].
  rewrite connects_deliveries, subscribes_deliveries, sleeps_deliveries,
    broadcasts_deliveries, C, S, Sl.
  split; [reflexivity |]. split; [reflexivity |]. split; [reflexivity |].
  split; [eexists; reflexivity |].
  intros obj Hin. cbn [List.app] in Hin. destruct Hin as [<- | Hin].
  - cbn [field status dict_get key_is String.eqb Ascii.eqb Bool.eqb].
    simpl. intros H. injection H as H. exact (error_msg_not_connected e H).
  - rewrite Forall_forall in B. exact (beat_not_connected obj (B obj Hin)).
Qed.

Lemma subscribe_failure_not_retried_witness :
  exists w1 t,
    _connect_interface_loop 10 all_up "node" [tick_unsubscribed; tick_refused] world1
    = (Ok tt, w1)
    /\ trace w1 = (trace world1 ++ t)%list
    /\ _interface w1 = Some "node"
    /\ connects t = ["node"]
    /\ subscribes t = 1%nat
    /\ sleeps t = 3%Q :: repeat (1 # 2)%Q (List.length [tick_refused])
    /\ (exists later,
          broadcasts t = status (error_msg (Exc OtherException "no bus")) [] :: later)
    /\ forall obj, In obj (broadcasts t) -> field "msg" obj <> Some (PStr "connected").
Proof.
  apply (subscribe_failure_not_retried 10 all_up "node" tick_unsubscribed [tick_refused]
           (Exc OtherException "no bus") world1); reflexivity.
Defined.

(** ** The snapshot on the wire *)










(** ** Payloads are not lost *)

Lemma unhex_hex2 b s : unhex (hex2 (Byte.to_N b) ++ s) =
  match unhex s with Some bs => Some (b :: bs) | None => None end.
Proof.
  unfold hex2. cbn [append unhex].
  assert (Byte.of_N (16 * hexval (hexdigit (Byte.to_N b / 16))
                     + hexval (hexdigit (Byte.to_N b mod 16))) = Some b) as ->.
  { destruct b; vm_compute; reflexivity. }
  reflexivity.
Qed.

Lemma unhex_hex bs : unhex (hex bs) = Some bs.
Proof.
  induction bs as [| b bs IH]; [reflexivity |].
  cbn [hex]. rewrite unhex_hex2, IH. reflexivity.
Qed.

(** X19. The hexadecimal text [_sanitize] puts in place of a byte
    sequence reads back as the same bytes, so that two payloads that
    differ are never sent as the same text. *)
Theorem payload_round_trip (d : nat) (bs : list byte) :
  exists s,
    _sanitize (S d) (PBytes bs) = Ok (PStr s)
    /\ unhex s = Some bs
    /\ forall bs', _sanitize (S d) (PBytes bs') = Ok (PStr s) -> bs' = bs.
Proof.
  exists (hex bs). split; [reflexivity |]. split; [apply unhex_hex |].
  intros bs' H. cbn [_sanitize] in H. injection H as H.
  pose proof (unhex_hex bs') as H1. rewrite H, unhex_hex in H1.
  injection H1 as H1. symmetry. exact H1.
Qed.

(** ** Heartbeats and primings are spaced *)

Lemma Qle_bool_lt a b : (b < a)%Q -> Qle_bool a b = false.
Proof.
  intros H. destruct (Qle_bool a b) eqn:E; [| reflexivity].
  apply Qle_bool_iff in E. destruct (Qlt_not_le _ _ H E).
Qed.

(** X20. A priming that is due is broadcast with the statistics and
    stamps the time; a call less than sixty seconds after it broadcasts
    nothing and changes nothing. *)
Theorem priming_rate_limited (depth : nat) (down : sock -> bool) (host : string)
    (t t' : Q) (w : world) :
  Qle_bool 60 (t - _last_priming w) = true ->
  (t' - t < 60)%Q ->
  exists w1 line,
    _priming_tick depth down host t w = (Ok tt, w1)
    /\ _last_priming w1 = t
    /\ trace w1 =
       (trace w
        ++ Broadcast (status "priming"
                        [(PStr "host", PStr host);
                         (PStr "stats", _get_stats w)])
           :: deliveries down line (_clients w))%list
    /\ _priming_tick depth down host t' w1 = (Ok tt, w1).
Proof.
  intros Hdue Hsoon.
  unfold _priming_tick at 1. rewrite Hdue. cbn [negb]. unfold bindM, update.
  destruct (broadcast_run depth down
              (status "priming"
                 [(PStr "host", PStr host); (PStr "stats", _get_stats (set_last_priming t w))])
              (set_last_priming t w))
    as (line & _ & ->).
  eexists _, line. split; [reflexivity |]. split; [reflexivity |].
  split; [reflexivity |].
  unfold _priming_tick. cbn [_last_priming after_broadcast log set_clients set_last_priming].
  rewrite (Qle_bool_lt _ _ Hsoon). reflexivity.
Qed.

Lemma priming_rate_limited_witness :
  exists w1 line,
    _priming_tick 10 all_up "node" 100%Q world1 = (Ok tt, w1)
    /\ _last_priming w1 = 100%Q
    /\ trace w1 =
       (trace world1
        ++ Broadcast (status "priming"
                        [(PStr "host", PStr "node");
                         (PStr "stats", _get_stats world1)])
           :: deliveries all_up line (_clients world1))%list
    /\ _priming_tick 10 all_up "node" 130%Q w1 = (Ok tt, w1).
Proof.
  apply (priming_rate_limited 10 all_up "node" 100%Q 130%Q world1); reflexivity.
Defined.

(** X21. A heartbeat that is due is broadcast with the statistics and
    stamps the time; in a turn less than five seconds after it no
    heartbeat goes out. *)
Theorem heartbeat_rate_limited (depth : nat) (down : sock -> bool) (host : string)
    (tk tk' : tick) (w : world) :
  Qle_bool 5 (now tk - last_hb w) = true ->
  (now tk' - now tk < 5)%Q ->
  exists w1 line,
    heartbeat_block depth down host tk w = (Ok tt, w1)
    /\ last_hb w1 = now tk
    /\ trace w1 =
       (trace w
        ++ Broadcast (status "heartbeat"
                        [(PStr "host", PStr host);
                         (PStr "stats", _get_stats w)])
           :: deliveries down line (_clients w))%list
    /\ heartbeat_block depth down host tk' w1 = (Ok tt, w1).
Proof.
  intros Hdue Hsoon.
  unfold heartbeat_block at 1. rewrite Hdue. unfold bindM, update.
  destruct (broadcast_run depth down
              (status "heartbeat"
                 [(PStr "host", PStr host); (PStr "stats", _get_stats w)]) w)
    as (line & _ & ->).
  eexists _, line. split; [reflexivity |]. split; [reflexivity |].
  split; [reflexivity |].
  unfold heartbeat_block. cbn [last_hb after_broadcast log set_clients set_last_hb].
  rewrite (Qle_bool_lt _ _ Hsoon). reflexivity.
Qed.

Lemma heartbeat_rate_limited_witness :
  exists w1 line,
    heartbeat_block 10 all_up "node" (Tick (Ok tt) (Ok tt) 7%Q 7%Q) world1 = (Ok tt, w1)
    /\ last_hb w1 = now (Tick (Ok tt) (Ok tt) 7%Q 7%Q)
    /\ trace w1 =
       (trace world1
        ++ Broadcast (status "heartbeat"
                        [(PStr "host", PStr "node");
                         (PStr "stats", _get_stats world1)])
           :: deliveries all_up line (_clients world1))%list
    /\ heartbeat_block 10 all_up "node" (Tick (Ok tt) (Ok tt) 9%Q 9%Q) w1 = (Ok tt, w1).
Proof.
  apply (heartbeat_rate_limited 10 all_up "node" (Tick (Ok tt) (Ok tt) 7%Q 7%Q)
           (Tick (Ok tt) (Ok tt) 9%Q 9%Q) world1); reflexivity.
Defined.
Example summary_of_text :
  _packet_summary (tag_channel ev_text) =
  Ok ("RX Canal 3 | TEXT_MESSAGE_APP | !a1 " ++ arrow ++ " ? | "
      ++ str1 dquote ++ "hola" ++ str1 dquote).
Proof. reflexivity. Qed.

Example summary_without_text :
  _packet_summary (tag_channel [(PStr "rssi", PInt (-90)); (PStr "rxSnr", PFloat (FFinite false 5 (Decimal.D2 (Decimal.D5 Decimal.Nil)) None))]) =
  Ok ("RX Canal ?? | UNKNOWN |  " ++ arrow ++ " ? (no-texto) | RSSI -90 dBm | SNR 5.25 dB").
Proof. reflexivity. Qed.

(** ** The summary line *)

Lemma method_get_dict d s default : method_get (PDict d) s default = Ok (get_or d s default).
Proof. reflexivity. Qed.

Lemma method_get_returns m s default :
  (exists v, method_get m s default = Ok v) <-> (exists d, m = PDict d).
Proof.
  split.
  - intros [v H]. destruct m; try discriminate H. eexists. reflexivity.
  - intros [d ->]. eexists. reflexivity.
Qed.

Lemma starts_with_app p s : starts_with p (p ++ s) = true.
Proof.
  induction p as [| a p IH]; [reflexivity |].
  simpl. rewrite Ascii.eqb_refl. exact IH.
Qed.

Lemma summary_run pkt :
  match py_or (get_or pkt "decoded" (PDict [])) (PDict []) with
  | PDict dec =>
      match get_or pkt "meta" (PDict []),
            py_or (get_or dec "header" (PDict [])) (PDict []),
            py_or (get_or dec "data" (PDict [])) (PDict []) with
      | PDict meta, PDict hdr, PDict data =>
          exists rest,
            _packet_summary pkt =
            Ok (summary_head (get_or meta "channelIndex" (_extract_channel pkt))
                  (get_or dec "portnum" PNone)
                  (get_or hdr "fromId" (PStr "")) (get_or hdr "toId" (PStr ""))
                ++ rest)
      | _, _, _ => exists e, _packet_summary pkt = Raise e
      end
  | _ => exists e, _packet_summary pkt = Raise e
  end.
Proof.
  unfold _packet_summary.
  destruct (py_or (get_or pkt "decoded" (PDict [])) (PDict [])) as [| | | | | | | | | dec | |];
    try (eexists; reflexivity).
  rewrite !method_get_dict. cbn [bind].
  destruct (get_or pkt "meta" (PDict [])) as [| | | | | | | | | meta | |];
    try (eexists; reflexivity).
  rewrite method_get_dict. cbn [bind].
  destruct (py_or (get_or dec "header" (PDict [])) (PDict [])) as [| | | | | | | | | hdr | |];
    try (eexists; reflexivity).
  rewrite !method_get_dict. cbn [bind].
  destruct (py_or (get_or dec "data" (PDict [])) (PDict [])) as [| | | | | | | | | data | |];
    try (eexists; reflexivity).
  rewrite method_get_dict. cbn [bind].
  destruct (get_or data "text" PNone); eexists; reflexivity.
Qed.

Lemma summary_returns pkt :
  (exists s, _packet_summary pkt = Ok s)
  <-> meta_shaped pkt && decoded_shaped pkt = true.
Proof.
  pose proof (summary_run pkt) as H.
  unfold meta_shaped, decoded_shaped, mapping_or_false.
  destruct (py_or (get_or pkt "decoded" (PDict [])) (PDict [])) as [| | | | | | | | | dec | |];
    try (destruct H as [e H]; rewrite H, andb_false_r;
         split; [intros [q Hq]; discriminate Hq | intros Hf; discriminate Hf]).
  destruct (get_or pkt "meta" (PDict [])) as [| | | | | | | | | meta | |];
    try (destruct H as [e H]; rewrite H;
         split; [intros [q Hq]; discriminate Hq | intros Hf; discriminate Hf]).
  destruct (py_or (get_or dec "header" (PDict [])) (PDict [])) as [| | | | | | | | | hdr | |];
    try (destruct H as [e H]; rewrite H;
         split; [intros [q Hq]; discriminate Hq | intros Hf; discriminate Hf]).
  destruct (py_or (get_or dec "data" (PDict [])) (PDict [])) as [| | | | | | | | | data | |];
    try (destruct H as [e H]; rewrite H;
         split; [intros [q Hq]; discriminate Hq | intros Hf; discriminate Hf]).
  destruct H as [rest H]. rewrite H. split; [reflexivity | eexists; reflexivity].
Qed.



Lemma get_or_tag packet s default :
  s <> "meta" -> get_or (tag_channel packet) s default = get_or packet s default.
Proof. intros H. unfold get_or. rewrite (tag_channel_get_other packet H). reflexivity. Qed.

Lemma decoded_shaped_tag packet : decoded_shaped (tag_channel packet) = decoded_shaped packet.
Proof.
  unfold decoded_shaped. rewrite get_or_tag; [reflexivity | discriminate].
Qed.


Lemma starts_with_head a b c d rest :
  starts_with (a ++ b ++ c) ((a ++ b ++ c ++ d) ++ rest) = true.
Proof.
  replace ((a ++ b ++ c ++ d) ++ rest) with ((a ++ b ++ c) ++ (d ++ rest))
    by (rewrite !append_assoc_s; reflexivity).
  apply starts_with_app.
Qed.

(** X23. The summary of a tagged event opens with the channel the
    callback extracted, two question marks standing for none. *)
Theorem summary_shows_tag (packet : pydict) (s : string) :
  _packet_summary (tag_channel packet) = Ok s ->
  starts_with
    ("RX Canal " ++ channel_text (_extract_channel packet) ++ " | ") s = true.
Proof.
  intros Hs. pose proof (summary_run (tag_channel packet)) as H.
  destruct (py_or (get_or (tag_channel packet) "decoded" (PDict [])) (PDict []))
    as [| | | | | | | | | dec | |];
    try (destruct H as [e H]; rewrite H in Hs; discriminate Hs).
  unfold get_or at 1 in H. rewrite tag_channel_meta in H.
  destruct (py_or (get_or dec "header" (PDict [])) (PDict [])) as [| | | | | | | | | hdr | |];
    try (destruct H as [e H]; rewrite H in Hs; discriminate Hs).
  destruct (py_or (get_or dec "data" (PDict [])) (PDict [])) as [| | | | | | | | | data | |];
    try (destruct H as [e H]; rewrite H in Hs; discriminate Hs).
  destruct H as [rest H].
  assert (Hg : forall default,
             get_or (dict_set "channelIndex" (_extract_channel packet) (old_meta packet))
               "channelIndex" default = _extract_channel packet).
  { intros default. unfold get_or. rewrite dict_get_set_same. reflexivity. }
  rewrite Hg in H.
  assert (Es : Ok s = Ok (summary_head (_extract_channel packet) (get_or dec "portnum" PNone)
                            (get_or hdr "fromId" (PStr "")) (get_or hdr "toId" (PStr ""))
                          ++ rest)) by congruence.
  assert (Es' : s = summary_head (_extract_channel packet) (get_or dec "portnum" PNone)
                      (get_or hdr "fromId" (PStr "")) (get_or hdr "toId" (PStr ""))
                    ++ rest) by congruence.
  rewrite Es'. unfold summary_head. apply starts_with_head.
Qed.

Lemma summary_shows_tag_witness :
  starts_with ("RX Canal " ++ channel_text (PInt 3) ++ " | ")
    ("RX Canal 3 | TEXT_MESSAGE_APP | !a1 " ++ arrow ++ " ? | "
     ++ str1 dquote ++ "hola" ++ str1 dquote) = true.
Proof.
  apply (summary_shows_tag ev_text). reflexivity.
Defined.

(** ** The callback in verbose mode *)

Lemma inc_stats_tag packet w :
  _inc_stats_from_packet (tag_channel packet) w =
  (Ok tt,
   set_stats (_total_packets w + 1)
     (if isinstance_int (_extract_channel packet)
      then by_channel_set (_extract_channel packet)
             (by_channel_get (_extract_channel packet) (_by_channel w) 0 + 1)
             (_by_channel w)
      else _by_channel w) w).
Proof.
  pose proof (inc_stats_run (tag_channel packet) w
                (or_intror (ex_intro _ _ (tag_channel_meta packet)))) as Hinc.
  rewrite counted_channel_tag in Hinc. exact Hinc.
Qed.

(** X24. In verbose mode an event whose [decoded], [header] or [data]
    is something true that is not a mapping is counted and tagged, and
    then lost: the summary raises, one error line is printed, and
    nothing is broadcast; with [_verbose] off the same event is
    broadcast. *)
Theorem verbose_skips_broadcast (depth : nat) (down : sock -> bool)
    (packet : pydict) (w : world) :
  decoded_shaped packet = false ->
  exists w1 e w2,
    _pubsub_callback_verbose depth down packet w =
      ((Ok (tag_channel packet), w1),
       ["[broker] error en _pubsub_callback: " ++ e_msg e])
    /\ _packet_summary (tag_channel packet) = Raise e
    /\ _total_packets w1 = _total_packets w + 1
    /\ trace w1 = trace w
    /\ _clients w1 = _clients w
    /\ _pubsub_callback depth down packet w = (Ok (tag_channel packet), w2)
    /\ broadcasts (trace w2) =
       (broadcasts (trace w)
        ++ [PDict [(PStr "type", PStr "packet");
                   (PStr "packet", PDict (tag_channel packet))]])%list.
Proof.
  intros Hshape.
  destruct (_packet_summary (tag_channel packet)) as [s | e] eqn:Es.
  { pose proof (proj1 (summary_returns (tag_channel packet))
                  (ex_intro _ s Es)) as H.
    rewrite decoded_shaped_tag, Hshape, andb_false_r in H. discriminate H. }
  destruct (callback_run depth down packet w) as (line & _ & Hc). cbv zeta in Hc.
  eexists _, e, _.
  split.
  { unfold _pubsub_callback_verbose. rewrite inc_stats_tag, Es. reflexivity. }
  split; [reflexivity |]. split; [reflexivity |]. split; [reflexivity |].
  split; [reflexivity |]. split; [exact Hc |].
  cbn [trace after_broadcast log set_clients set_stats].
  rewrite broadcasts_app. cbn [broadcasts]. rewrite broadcasts_deliveries. reflexivity.
Qed.

Lemma verbose_skips_broadcast_witness :
  exists w1 e w2,
    _pubsub_callback_verbose 10 all_up ev_decoded_text world1 =
      ((Ok (tag_channel ev_decoded_text), w1),
       ["[broker] error en _pubsub_callback: " ++ e_msg e])
    /\ _packet_summary (tag_channel ev_decoded_text) = Raise e
    /\ _total_packets w1 = _total_packets world1 + 1
    /\ trace w1 = trace world1
    /\ _clients w1 = _clients world1
    /\ _pubsub_callback 10 all_up ev_decoded_text world1 = (Ok (tag_channel ev_decoded_text), w2)
    /\ broadcasts (trace w2) =
       (broadcasts (trace world1)
        ++ [PDict [(PStr "type", PStr "packet");
                   (PStr "packet", PDict (tag_channel ev_decoded_text))]])%list.
Proof.
  apply (verbose_skips_broadcast 10 all_up ev_decoded_text world1). reflexivity.
Defined.



(** ** The channel tag on the wire *)







(** ** Frames *)

Lemma counters_kept_refl w : counters_kept w w.
Proof. unfold counters_kept. repeat split. apply incl_refl. Qed.

Lemma counters_kept_trans w1 w2 w3 :
  counters_kept w1 w2 -> counters_kept w2 w3 -> counters_kept w1 w3.
Proof.
  intros (T1 & B1 & C1) (T2 & B2 & C2). unfold counters_kept.
  rewrite T2, T1, B2, B1. repeat split. exact (incl_tran C2 C1).
Qed.

Lemma incl_filter_up (down : sock -> bool) l : incl (filter (fun s => negb (down s)) l) l.
Proof. intros s Hs. apply filter_In in Hs. exact (proj1 Hs). Qed.

Lemma counters_kept_broadcast down obj line w :
  counters_kept w (after_broadcast down obj line w).
Proof. unfold counters_kept. repeat split. apply incl_filter_up. Qed.

Lemma connect_block_kept depth down host tk w :
  exists r w1, connect_block depth down host tk w = (r, w1) /\ counters_kept w w1.
Proof.
  unfold connect_block. destruct (_interface w).
  - eexists _, _. split; [reflexivity | apply counters_kept_refl].
  - unfold bindM, update, lift.
    destruct (connect tk) as [[] | e].
    + destruct (subscribe tk) as [[] | e].
      * destruct (broadcast_run depth down (status "connected" [(PStr "host", PStr host)])
                    (log [Subscribe] (set_interface (Some host) (log [Connect host] w))))
          as (line & _ & ->).
        eexists _, _. split; [reflexivity |].
        unfold counters_kept. repeat split. apply incl_filter_up.
      * eexists _, _. split; [reflexivity |]. unfold counters_kept. repeat split.
        apply incl_refl.
    + eexists _, _. split; [reflexivity |]. unfold counters_kept. repeat split.
      apply incl_refl.
Qed.

Lemma heartbeat_block_kept depth down host tk w :
  exists w1, heartbeat_block depth down host tk w = (Ok tt, w1) /\ counters_kept w w1.
Proof.
  unfold heartbeat_block. destruct (Qle_bool 5 (now tk - last_hb w)).
  - unfold bindM, update.
    destruct (broadcast_run depth down
                (status "heartbeat" [(PStr "host", PStr host); (PStr "stats", _get_stats w)]) w)
      as (line & _ & ->).
    eexists. split; [reflexivity |]. unfold counters_kept. repeat split.
    apply incl_filter_up.
  - eexists. split; [reflexivity | apply counters_kept_refl].
Qed.

Lemma priming_tick_kept depth down host t w :
  exists w1, _priming_tick depth down host t w = (Ok tt, w1) /\ counters_kept w w1.
Proof.
  unfold _priming_tick. destruct (Qle_bool 60 (t - _last_priming w)); cbn [negb].
  - unfold bindM, update.
    destruct (broadcast_run depth down
                (status "priming"
                   [(PStr "host", PStr host); (PStr "stats", _get_stats (set_last_priming t w))])
                (set_last_priming t w))
      as (line & _ & ->).
    eexists. split; [reflexivity |]. unfold counters_kept. repeat split.
    apply incl_filter_up.
  - eexists. split; [reflexivity | apply counters_kept_refl].
Qed.

Lemma loop_turn_kept depth down host tk w :
  exists w1, loop_turn depth down host tk w = (Ok tt, w1) /\ counters_kept w w1.
Proof.
  destruct (connect_block_kept depth down host tk w) as (r & w1 & Hc & K1).
  destruct r as [[] | e].
  - destruct (heartbeat_block_kept depth down host tk w1) as (w2 & Hh & K2).
    destruct (priming_tick_kept depth down host (now_priming tk) w2) as (w3 & Hp & K3).
    exists (log [Sleep (1 # 2)%Q] w3). split.
    + unfold loop_turn, try_M, loop_try, bindM. rewrite Hc, Hh, Hp. reflexivity.
    + apply (counters_kept_trans w w1 _ K1). apply (counters_kept_trans w1 w2 _ K2).
      apply (counters_kept_trans w2 w3 _ K3). unfold counters_kept. repeat split.
      apply incl_refl.
  - assert (Htry : loop_try depth down host tk w = (Raise e, w1)).
    { unfold loop_try, bindM. rewrite Hc. reflexivity. }
    destruct (loop_turn_handles depth down host tk w e w1 Htry) as (line & _ & ->).
    eexists. split; [reflexivity |].
    apply (counters_kept_trans w w1 _ K1). unfold counters_kept. repeat split.
    apply incl_filter_up.
Qed.

(** X27. The ingestion loop never touches the counters and never adds
    a client: after any number of turns the total and the table are
    what they were, and every registered client was registered
    before. *)
Theorem loop_keeps_counters (depth : nat) (down : sock -> bool) (host : string)
    (ticks : list tick) (w : world) :
  exists w1,
    _connect_interface_loop depth down host ticks w = (Ok tt, w1)
    /\ _total_packets w1 = _total_packets w
    /\ _by_channel w1 = _by_channel w
    /\ incl (_clients w1) (_clients w).
Proof.
  revert w. induction ticks as [| tk ticks IH]; intros w.
  - exists w. split; [reflexivity |]. apply counters_kept_refl.
  - destruct (loop_turn_kept depth down host tk w) as (w1 & Ht & K1).
    destruct (IH w1) as (w2 & Hl & K2).
    exists w2. split.
    + cbn [_connect_interface_loop]. unfold bindM. rewrite Ht. exact Hl.
    + exact (counters_kept_trans w w1 w2 K1 K2).
Qed.

(** X28. The callback never touches the upstream side: over any run of
    received events the interface and the clocks of heartbeat and
    priming are what they were, no client is added, and nothing is
    opened, subscribed or slept. *)
Theorem callback_keeps_upstream (depth : nat) (down : sock -> bool)
    (packets : list pydict) (w : world) :
  exists w1 t,
    receive_all depth down packets w = (Ok tt, w1)
    /\ _interface w1 = _interface w
    /\ last_hb w1 = last_hb w
    /\ _last_priming w1 = _last_priming w
    /\ incl (_clients w1) (_clients w)
    /\ trace w1 = (trace w ++ t)%list
    /\ connects t = [] /\ subscribes t = O /\ sleeps t = [].
Proof.
  revert w. induction packets as [| p rest IH]; intros w.
  - exists w, []. rewrite List.app_nil_r. split; [reflexivity |].
    repeat split. apply incl_refl.
  - destruct (callback_run depth down p w) as (line & _ & Hc). cbv zeta in Hc.
    set (w1 := after_broadcast _ _ _ _) in Hc.
    destruct (IH w1) as (w2 & t2 & Hr & I & Hb & P & C & T & Cn & Sb & Sl).
    exists w2,
      ((Broadcast (PDict [(PStr "type", PStr "packet"); (PStr "packet", PDict (tag_channel p))])
        :: deliveries down line (_clients w)) ++ t2)%list.
    split.
    { cbn [receive_all]. unfold bindM. rewrite Hc. exact Hr. }
    split; [rewrite I; reflexivity |].
    split; [rewrite Hb; reflexivity |].
    split; [rewrite P; reflexivity |].
    split.
    { apply (incl_tran C). subst w1. cbn [_clients after_broadcast log set_clients set_stats].
      apply incl_filter_up. }
    split.
    { rewrite T. subst w1. cbn [trace after_broadcast log set_clients set_stats _clients].
      rewrite <- List.app_assoc. reflexivity. }
    rewrite connects_app, subscribes_app, sleeps_app.
    cbn [connects subscribes sleeps].
    rewrite connects_deliveries, subscribes_deliveries, sleeps_deliveries, Cn, Sb, Sl.
    repeat split.
Qed.
